(** * MatchingApp: the scrape-parse-cache pipeline of [main.go]

  A shallow embedding of [refreshSchedule] and [refreshScheduleIfNeeded]
  together with the pieces of the Go standard library they call
  ([strings.Replace], [strings.Trim], [strings.Contains], the regular
  expression [\s+], [time.Parse], [time.Format], [time.Since]).

  Go strings are byte sequences, so they are modelled by [string] (one
  [ascii] per byte); literals that are not ASCII stand for their UTF-8
  bytes, exactly as in the Go source file. *)

From Stdlib Require Import ZArith Ascii DecimalString.
From stdpp Require Import gmap strings list fin_maps.

(** ** Package [strings] and the [multipleSpaces] regular expression *)

Module Text.

(** [strings.HasPrefix s prefix]. *)
Fixpoint HasPrefix (s prefix : string) {struct prefix} : bool :=
  match prefix, s with
  | EmptyString, _ => true
  | String _ _, EmptyString => false
  | String p prefix', String c s' =>
      if decide (c = p) then HasPrefix s' prefix' else false
  end.

(** [strings.Contains s substr]: some position of [s] starts with
    [substr]; the empty string is contained in every string. *)
Fixpoint Contains (s substr : string) : bool :=
  HasPrefix s substr ||
  match s with
  | EmptyString => false
  | String _ s' => Contains s' substr
  end.

(** Width in bytes of the first UTF-8 sequence of a non-empty string,
    as [utf8.DecodeRuneInString] reports it: an ill-formed or truncated
    sequence counts as one byte. [lo] and [hi] bound the second byte. *)
Definition continuation (s : string) (lo hi : N) : option string :=
  match s with
  | String c s' =>
      if ((lo <=? N_of_ascii c) && (N_of_ascii c <=? hi))%N then Some s' else None
  | EmptyString => None
  end.

Definition runeWidth (c : ascii) (rest : string) : nat :=
  let b := N_of_ascii c in
  let '(size, lo, hi) :=
    (if b <? 0xC2 then (1, 0, 0)
     else if b <? 0xE0 then (2, 0x80, 0xBF)
     else if b =? 0xE0 then (3, 0xA0, 0xBF)
     else if b =? 0xED then (3, 0x80, 0x9F)
     else if b <? 0xF0 then (3, 0x80, 0xBF)
     else if b =? 0xF0 then (4, 0x90, 0xBF)
     else if b <? 0xF4 then (4, 0x80, 0xBF)
     else if b =? 0xF4 then (4, 0x80, 0x8F)
     else (1, 0, 0))%N in
  match size with
  | 2%N => match continuation rest lo hi with Some _ => 2 | None => 1 end
  | 3%N => match continuation rest lo hi with
           | Some r1 => match continuation r1 0x80 0xBF with Some _ => 3 | None => 1 end
           | None => 1
           end
  | 4%N => match continuation rest lo hi with
           | Some r1 =>
               match continuation r1 0x80 0xBF with
               | Some r2 => match continuation r2 0x80 0xBF with Some _ => 4 | None => 1 end
               | None => 1
               end
           | None => 1
           end
  | _ => 1
  end.

(** [strings.Replace s old new (-1)] for a non-empty [old]: the
    non-overlapping occurrences of [old] are replaced from left to right.
    [skip] counts the bytes of the occurrence just replaced that are
    still to be passed over. *)
Fixpoint replaceFrom (skip : nat) (s old new : string) : string :=
  match s with
  | EmptyString => EmptyString
  | String c s' =>
      match skip with
      | S k => replaceFrom k s' old new
      | O =>
          if HasPrefix s old
          then new +:+ replaceFrom (String.length old - 1) s' old new
          else String c (replaceFrom 0 s' old new)
      end
  end.

(** [strings.Replace s "" new (-1)]: [new] is inserted in front of the
    string and after each UTF-8 sequence. [left] counts the bytes of the
    current sequence that are still to be copied. *)
Fixpoint insertAfterRunes (left : nat) (s new : string) : string :=
  match s with
  | EmptyString => EmptyString
  | String c s' =>
      let w := match left with O => runeWidth c s' | S _ => left end in
      match w with
      | S (S k) => String c (insertAfterRunes (S k) s' new)
      | _ => String c (new +:+ insertAfterRunes 0 s' new)
      end
  end.

(** [strings.Replace s old new (-1)]. *)
Definition Replace (s old new : string) : string :=
  match old with
  | EmptyString => new +:+ insertAfterRunes 0 s new
  | String _ _ => replaceFrom 0 s old new
  end.

(** The class [\s] of Go's regexp syntax: tab, newline, form feed,
    carriage return and space. *)
Definition isSpace (c : ascii) : bool :=
  match N_of_ascii c with
  | 9%N | 10%N | 12%N | 13%N | 32%N => true
  | _ => false
  end.

(** [multipleSpaces.ReplaceAllString s " "] with
    [multipleSpaces = regexp.MustCompile(`\s+`)]: each maximal run of
    [\s] bytes becomes one space. [inRun] tells that the previous byte
    belonged to a run whose replacement has been emitted already. *)
Fixpoint collapseRuns (inRun : bool) (s : string) : string :=
  match s with
  | EmptyString => EmptyString
  | String c s' =>
      if isSpace c
      then (if inRun then collapseRuns true s' else String " " (collapseRuns true s'))
      else String c (collapseRuns false s')
  end.

Definition multipleSpaces_ReplaceAllString (s : string) : string :=
  collapseRuns false s.

(** [strings.TrimLeft s " "] and [strings.TrimRight s " "]. *)
Fixpoint TrimLeft (s : string) : string :=
  match s with
  | String c s' => if decide (c = " "%char) then TrimLeft s' else s
  | EmptyString => EmptyString
  end.

Fixpoint TrimRight (s : string) : string :=
  match s with
  | String c s' =>
      match TrimRight s' with
      | EmptyString => if decide (c = " "%char) then EmptyString else String c EmptyString
      | r => String c r
      end
  | EmptyString => EmptyString
  end.

(** [strings.Trim s " "]. *)
Definition Trim (s : string) : string := TrimRight (TrimLeft s).

(** The Go literal ["\n"]. *)
Definition newline : string := String (ascii_of_nat 10) EmptyString.

(** Lines 111-113 of [main.go]: the normalisation of the league text. *)
Definition normalize (league : string) : string :=
  let league := Replace league newline " " in
  let league := multipleSpaces_ReplaceAllString league in
  Trim league.

End Text.

(** ** Package [time]

  [time.Time] in its classic representation: seconds since January 1,
  year 1, 00:00:00 UTC and nanoseconds within the second. The times that
  [refreshSchedule] formats come from [time.Parse] or are [Time{}], both
  in UTC, so no location is carried. Machine integers are [Z] with the
  wrap-around of the [uint64] and [int64] conversions written out. *)

Module GoTime.
Local Open Scope Z_scope.

Record Time := mkTime { sec : Z; nsec : Z }.

(** [Time{}], the zero time. *)
Definition zeroTime : Time := mkTime 0 0.

Definition u64 (z : Z) : Z := z mod 2 ^ 64.
Definition i64 (z : Z) : Z := (z + 2 ^ 63) mod 2 ^ 64 - 2 ^ 63.

Definition secondsPerDay : Z := 86400.
Definition secondsPerWeek : Z := 7 * secondsPerDay.
Definition daysPer400Years : Z := 365 * 400 + 97.
Definition daysPer100Years : Z := 365 * 100 + 24.
Definition daysPer4Years : Z := 365 * 4 + 1.
Definition absoluteZeroYear : Z := -292277022399.
(** [(absoluteZeroYear - internalYear) * 365.2425 * secondsPerDay]. *)
Definition absoluteToInternal : Z := (absoluteZeroYear - 1) * 31556952.
Definition internalToAbsolute : Z := - absoluteToInternal.

(** [daysBefore[m]]: days in a non-leap year before month [m+1]. *)
Definition daysBeforeTable : list Z :=
  [0; 31; 59; 90; 120; 151; 181; 212; 243; 273; 304; 334; 365].
Definition daysBefore (m : Z) : Z := nth (Z.to_nat m) daysBeforeTable 0.

(** [isLeap]: [%] of Go truncates towards zero, as [Z.rem]. *)
Definition isLeap (year : Z) : bool :=
  (Z.rem year 4 =? 0) && (negb (Z.rem year 100 =? 0) || (Z.rem year 400 =? 0)).

Definition daysIn (m year : Z) : Z :=
  if (m =? 2) && isLeap year then 29 else daysBefore m - daysBefore (m - 1).

(** [norm hi lo base]: carry [lo] into [hi] until [0 <= lo < base]. *)
Definition norm (hi lo base : Z) : Z * Z :=
  let '(hi, lo) :=
    if lo <? 0 then let n := Z.quot (- lo - 1) base + 1 in (hi - n, lo + n * base)
    else (hi, lo) in
  if lo >=? base then let n := Z.quot lo base in (hi + n, lo - n * base)
  else (hi, lo).

(** [daysSinceEpoch year]: days from the absolute epoch to the start of
    the year. *)
Definition daysSinceEpoch (year : Z) : Z :=
  let y := u64 (year - absoluteZeroYear) in
  let n := y / 400 in
  let y := y - 400 * n in
  let d := daysPer400Years * n in
  let n := y / 100 in
  let y := y - 100 * n in
  let d := d + daysPer100Years * n in
  let n := y / 4 in
  let y := y - 4 * n in
  let d := d + daysPer4Years * n in
  let n := y in
  d + 365 * n.

(** [time.Date year month day 0 0 0 0 time.UTC]. *)
Definition Date (year month day : Z) : Time :=
  let '(year, m) := norm year (month - 1) 12 in
  let month := m + 1 in
  let d := daysSinceEpoch year in
  let d := d + daysBefore (month - 1) in
  let d := if isLeap year && (month >=? 3) then d + 1 else d in
  let d := d + (day - 1) in
  let abs := u64 (d * secondsPerDay) in
  mkTime (i64 (abs + absoluteToInternal)) 0.

(** [t.abs()] for a time in UTC. *)
Definition abs (t : Time) : Z := u64 (sec t + internalToAbsolute).

(** [absDate abs true], returning year, month and day of the month. *)
Definition absDate (abs : Z) : Z * Z * Z :=
  let d := abs / secondsPerDay in
  let n := d / daysPer400Years in
  let y := 400 * n in
  let d := d - daysPer400Years * n in
  let n := d / daysPer100Years in
  let n := n - Z.shiftr n 2 in
  let y := y + 100 * n in
  let d := d - daysPer100Years * n in
  let n := d / daysPer4Years in
  let y := y + 4 * n in
  let d := d - daysPer4Years * n in
  let n := d / 365 in
  let n := n - Z.shiftr n 2 in
  let y := y + n in
  let d := d - 365 * n in
  let year := i64 (y + absoluteZeroYear) in
  let yday := d in
  let day := yday in
  let leap := isLeap year in
  if leap && (day =? 31 + 29 - 1) then (year, 2, 29)
  else
    let day := if leap && (day >? 31 + 29 - 1) then day - 1 else day in
    let month := day / 31 in
    let end_ := daysBefore (month + 1) in
    let '(month, begin) :=
      if day >=? end_ then (month + 1, end_) else (month, daysBefore month) in
    (year, month + 1, day - begin + 1).

(** [absWeekday]: day 0 of the absolute epoch is a Monday. *)
Definition absWeekday (abs : Z) : Z :=
  let sec := u64 (abs + 1 * secondsPerDay) mod secondsPerWeek in
  sec / secondsPerDay.

(** The table [days] behind [Weekday.String]. *)
Definition days : list string :=
  ["Sunday"; "Monday"; "Tuesday"; "Wednesday"; "Thursday"; "Friday"; "Saturday"].

(** Decimal digits of a non-negative integer. *)
Definition itoa (x : Z) : string := NilZero.string_of_uint (N.to_uint (Z.to_N x)).

Fixpoint zeros (n : nat) : string :=
  match n with O => EmptyString | S n' => String "0" (zeros n') end.

(** [appendInt b x width]: the digits of [x], padded with zeros to
    [width], behind a minus sign when [x] is negative. *)
Definition appendInt (x : Z) (width : nat) : string :=
  let u := itoa (Z.abs x) in
  (if x <? 0 then "-" else "") +:+ zeros (width - String.length u) +:+ u.

(** [t.Format("2006-01-02 - ")]. *)
Definition Format_date (t : Time) : string :=
  let '(year, month, day) := absDate (abs t) in
  appendInt year 4 +:+ "-" +:+ appendInt month 2 +:+ "-" +:+ appendInt day 2 +:+ " - ".

(** [t.Format("Monday")]. *)
Definition Format_weekday (t : Time) : string :=
  nth (Z.to_nat (absWeekday (abs t))) days "".

Definition digit (c : ascii) : option Z :=
  let n := Z.of_N (N_of_ascii c) in
  if (48 <=? n) && (n <=? 57) then Some (n - 48) else None.

(** [getnum value true]: exactly two digits. *)
Definition getnum (value : string) : option (Z * string) :=
  match value with
  | String a (String b rest) =>
      x ← digit a; y ← digit b; Some (x * 10 + y, rest)
  | _ => None
  end.

(** The year field [2006]: four bytes, all of them digits. *)
Definition getyear (value : string) : option (Z * string) :=
  match value with
  | String a (String b (String c (String d rest))) =>
      x ← digit a; y ← digit b; z ← digit c; w ← digit d;
      Some (((x * 10 + y) * 10 + z) * 10 + w, rest)
  | _ => None
  end.

(** [skip value "-"]. *)
Definition skipDash (value : string) : option string :=
  match value with
  | String c rest => if decide (c = "-"%char) then Some rest else None
  | EmptyString => None
  end.

(** [time.Parse("2006-01-02", value)]; [None] stands for a non-nil
    error, in which case Go returns [Time{}] as the time. The month is
    checked as soon as it is read, the day of the month once the whole
    value is read, as [Parse] validates them. *)
Definition Parse (value : string) : option Time :=
  '(year, value) ← getyear value;
  value ← skipDash value;
  '(month, value) ← getnum value;
  _ ← guard (1 <= month <= 12);
  value ← skipDash value;
  '(day, value) ← getnum value;
  _ ← guard (value = EmptyString);
  _ ← guard (1 <= day <= daysIn month year);
  Some (Date year month day).

(** [time.Duration]: nanoseconds in an [int64]. *)
Definition minDuration : Z := - 2 ^ 63.
Definition maxDuration : Z := 2 ^ 63 - 1.
Definition Second : Z := 1000000000.
Definition Hour : Z := 3600 * Second.

(** [t.Sub(u)]: the difference in nanoseconds, or the minimum or maximum
    duration when the difference does not fit. *)
Definition Sub (t u : Time) : Z :=
  let d := (sec t - sec u) * Second + (nsec t - nsec u) in
  if (minDuration <=? d) && (d <=? maxDuration) then d
  else if d <? 0 then minDuration else maxDuration.

End GoTime.

(** ** [main.go] *)

Module App.
Import Text.

Definition daysToShow : nat := 10.
Definition cacheDuration : Z := 10 * GoTime.Hour.
Definition leagues : list string := ["Premier League"].

Definition dayNames : gmap string string :=
  list_to_map
    [("Monday", "Måndag"); ("Tuesday", "Tisdag"); ("Wednesday", "Onsdag");
     ("Thursday", "Torsdag"); ("Friday", "Fredag"); ("Saturday", "Lördag");
     ("Sunday", "Söndag")].

(** The struct [match]. *)
Record match_ := mkMatch {
  Name : string;
  League : string;
  Channel : string;
  Time : string
}.

(** What the goquery selections give for one [.sport-name-fotboll] row:
    the text of [.match-name], the text of [.league], the text of each
    [a] below [.league] in document order, the [title] attribute of
    [.channel .channel-item] when there is one, and the text of
    [.time .field-content]. *)
Record Row := mkRow {
  matchNameText : string;
  leagueText : string;
  leagueLinks : list string;
  channelTitle : option string;
  timeText : string
}.

(** One [h2.day-name] header: the [id] attribute of its
    [span.day-name-inner] when there is one, and the football rows of
    the sibling that follows the header. *)
Record DayHeader := mkDay {
  innerId : option string;
  tableRows : list Row
}.

(** [doc.Find("h2.day-name")], in document order. *)
Definition Document := list DayHeader.

(** Lines 107-109: each link text is removed from the league text. *)
Definition stripLinks (league : string) (links : list string) : string :=
  foldl (fun league a => Replace league a "") league links.

(** Lines 115-123: the loop over [leagues], left at the first hit. *)
Fixpoint interested (league : string) (ls : list string) : bool :=
  match ls with
  | [] => false
  | l :: ls' => if Contains league l then true else interested league ls'
  end.

(** The league text as the filter sees it (lines 105-113). *)
Definition rowLeague (ms : Row) : string :=
  normalize (stripLinks (leagueText ms) (leagueLinks ms)).

(** Lines 104-139, the body of the inner [Each]: the record appended to
    the day's slice, if any. A missing [title] reads as the empty
    string. *)
Definition extractRow (ms : Row) : option match_ :=
  let name := matchNameText ms in
  let league := rowLeague ms in
  if negb (interested league leagues) then None
  else
    let channel := default "" (channelTitle ms) in
    let time := timeText ms in
    Some {| Name := name; League := league; Channel := channel; Time := time |}.

(** [schedule[date] = append(schedule[date], m)]; a missing key reads as
    the nil slice. *)
Definition appendMatch (date : string) (schedule : gmap string (list match_))
    (m : match_) : gmap string (list match_) :=
  <[date := default [] (schedule !! date) ++ [m]]> schedule.

Definition processRow (date : string) (schedule : gmap string (list match_))
    (ms : Row) : gmap string (list match_) :=
  match extractRow ms with
  | Some m => appendMatch date schedule m
  | None => schedule
  end.

(** Lines 93-98: the key of the day. A missing [id] reads as the empty
    string, and a parse error leaves [t] at [Time{}]. *)
Definition dayLabel (s : DayHeader) : string :=
  let date := default "" (innerId s) in
  let date := Replace date "match-day-" "" in
  let t := default GoTime.zeroTime (GoTime.Parse date) in
  GoTime.Format_date t +:+ default "" (dayNames !! GoTime.Format_weekday t).

(** Lines 88-141, the body of the outer [Each] at index [i]. *)
Definition processDay (i : nat) (schedule : gmap string (list match_))
    (s : DayHeader) : gmap string (list match_) :=
  if decide (daysToShow <= i)%nat then schedule
  else
    let date := dayLabel s in
    foldl (processRow date) (<[date := []]> schedule) (tableRows s).

(** [days.Each] from index [i] on. *)
Fixpoint eachDay (i : nat) (schedule : gmap string (list match_))
    (days : list DayHeader) : gmap string (list match_) :=
  match days with
  | [] => schedule
  | s :: days' => eachDay (S i) (processDay i schedule s) days'
  end.

(** Lines 84-141: a new map, filled by the walk over the headers. *)
Definition parseSchedule (doc : Document) : gmap string (list match_) :=
  eachDay 0 ∅ doc.

(** The package variables [schedule] and [lastRefresh]. *)
Record State := mkState {
  schedule : gmap string (list match_);
  lastRefresh : GoTime.Time
}.

(** What the upstream gives to one refresh: [client.Get] fails with an
    error, or [goquery.NewDocumentFromResponse] fails with an error (its
    document is then nil), or the document is there. *)
Inductive Upstream :=
| GetFails (err : string)
| ParseFails (err : string)
| Parsed (doc : Document).

(** The effects a request handler can see: a call of
    [client.Get(tvmatchenUrl)] and a call of [http.Error(w, msg, 500)]. *)
Inductive Event :=
| Fetch
| HttpError (msg : string).

Record Result := mkResult {
  after : State;
  events : list Event;
  panicked : bool
}.

(** Lines 69-141, the body of [refreshSchedule] under the lock: the new
    value of [schedule], the effects, and whether the body panics. After
    a failed [Get] it returns at line 75. After a failed document parse
    it does not return: line 84 assigns the new map and line 87 calls
    [Find] on the nil document, a nil dereference. *)
Definition refreshBody (up : Upstream) (st : State)
    : gmap string (list match_) * list Event * bool :=
  match up with
  | GetFails err => (schedule st, [Fetch; HttpError err], false)
  | ParseFails err => (∅, [Fetch; HttpError err], true)
  | Parsed doc => (parseSchedule doc, [Fetch], false)
  end.

(** [refreshSchedule]: the deferred function of lines 63-67 runs however
    the body ends and stores [time.Now()], here [now]. *)
Definition refreshSchedule (up : Upstream) (now : GoTime.Time) (st : State) : Result :=
  let '(sched, evs, p) := refreshBody up st in
  {| after := {| schedule := sched; lastRefresh := now |};
     events := evs; panicked := p |}.

(** [refreshScheduleIfNeeded]: [checked] is the clock read by
    [time.Since], [now] the one read when the refresh ends. *)
Definition refreshScheduleIfNeeded (up : Upstream) (checked now : GoTime.Time)
    (st : State) : Result :=
  let elapsed := GoTime.Sub checked (lastRefresh st) in
  if (elapsed >? cacheDuration)%Z then refreshSchedule up now st
  else {| after := st; events := []; panicked := false |}.

End App.

(** ** Concurrent request handlers

  Handlers run [refreshScheduleIfNeeded] side by side. A handler reads
  [lastRefresh] without holding [mu] (line 146); [refreshSchedule] then
  takes [mu], runs its body, and its deferred function stores the time
  and releases [mu]. The interleavings are the sequences of these
  steps. *)

Module Concurrent.
Import App.

(** Where a handler stands. The body of [refreshSchedule] counts as one
    step: what is observed here is the number of fetches, not the map
    while it is filled. *)
Inductive Handler :=
| Arrived                (* before the test of line 146 *)
| Waiting                (* found the cache stale; at [mu.Lock()] *)
| Holding                (* holds [mu]; before [client.Get] *)
| Finishing (p : bool)   (* body over; the deferred function is due *)
| Served.                (* [refreshScheduleIfNeeded] is over *)

Global Instance Event_eq_dec : EqDecision Event.
Proof. solve_decision. Defined.

Record World := mkWorld {
  shared : State;
  mu : bool;
  log : list Event;
  handlers : list Handler
}.

(** The number of calls of [client.Get] so far. *)
Definition fetches (w : World) : nat := length (filter (λ e, e = Fetch) (log w)).

Inductive step : World → World → Prop :=
| step_fresh w i checked :
    handlers w !! i = Some Arrived →
    (GoTime.Sub checked (lastRefresh (shared w)) <= cacheDuration)%Z →
    step w (mkWorld (shared w) (mu w) (log w) (<[i := Served]> (handlers w)))
| step_stale w i checked :
    handlers w !! i = Some Arrived →
    (cacheDuration < GoTime.Sub checked (lastRefresh (shared w)))%Z →
    step w (mkWorld (shared w) (mu w) (log w) (<[i := Waiting]> (handlers w)))
| step_lock w i :
    handlers w !! i = Some Waiting →
    mu w = false →
    step w (mkWorld (shared w) true (log w) (<[i := Holding]> (handlers w)))
| step_body w i up :
    handlers w !! i = Some Holding →
    step w (mkWorld (mkState (refreshBody up (shared w)).1.1 (lastRefresh (shared w)))
              (mu w)
              (log w ++ (refreshBody up (shared w)).1.2)
              (<[i := Finishing (refreshBody up (shared w)).2]> (handlers w)))
| step_unlock w i p now :
    handlers w !! i = Some (Finishing p) →
    step w (mkWorld (mkState (schedule (shared w)) now) false (log w)
              (<[i := Served]> (handlers w))).

(** A handler that is past the test and has not fetched yet. *)
Definition owes (h : Handler) : nat :=
  match h with Waiting | Holding => 1 | _ => 0 end.

Definition owed (hs : list Handler) : nat := sum_list (owes <$> hs).

End Concurrent.

(** ** The handler of [/schedule.json] (lines 158-169)

  [json.Marshal] is a parameter: it gives the bytes of the document or
  the text of an error. A panic of the refresh ends the handler. *)

Module Handlers.
Import App.

(** What the handler does to the response, besides the effects of the
    refresh: [w.Header().Set("Content-Type", v)] and [w.Write(body)]. *)
Inductive Output :=
| Effect (e : Event)
| SetContentType (v : string)
| Write (body : string).

(** The package variables as the handler reads them: [schedule] is the
    nil map (line 35) until line 84 assigns a map made by [make]. The
    nil map reads like the empty map, but [json.Marshal] tells them
    apart, so [made] records whether line 84 has run. *)
Record Cache := mkCache {
  vars : State;
  made : bool
}.

(** The value of [schedule] handed to [json.Marshal]: [None] is the nil
    map. *)
Definition scheduleValue (c : Cache) : option (gmap string (list match_)) :=
  if made c then Some (schedule (vars c)) else None.

(** [refreshScheduleIfNeeded] on the cache: when the refresh runs and
    [client.Get] succeeds, line 84 is reached. *)
Definition refreshCache (up : Upstream) (checked now : GoTime.Time) (c : Cache)
    : Cache * Result :=
  let r := refreshScheduleIfNeeded up checked now (vars c) in
  let stale := (GoTime.Sub checked (lastRefresh (vars c)) >? cacheDuration)%Z in
  let made' :=
    match up with
    | GetFails _ => made c
    | ParseFails _ | Parsed _ => made c || stale
    end in
  (mkCache (after r) made', r).

Section JSON.
Variable Marshal : option (gmap string (list match_)) → string + string.

Definition scheduleJSON (up : Upstream) (checked now : GoTime.Time) (c : Cache)
    : Cache * list Output * bool :=
  let '(c', r) := refreshCache up checked now c in
  if panicked r then (c', Effect <$> events r, true)
  else
    match Marshal (scheduleValue c') with
    | inr err => (c', (Effect <$> events r) ++ [Effect (HttpError err)], false)
    | inl js =>
        (c',
         (Effect <$> events r)
           ++ [SetContentType "application/json; charset=utf-8"; Write js],
         false)
    end.

End JSON.

End Handlers.

(** * Notions used in the statements and in the proofs *)

Module TextSpec.
Import Text.

(** [sub] occurs in [s]. *)
Definition substring (sub s : string) : Prop :=
  ∃ pre post, s = pre +:+ sub +:+ post.

(** Every [\s] byte is a single space that follows a byte outside [\s];
    with [b] set, the string moreover does not begin with a space. *)
Fixpoint spaced (b : bool) (s : string) : Prop :=
  match s with
  | EmptyString => True
  | String c s' =>
      if isSpace c then c = " "%char ∧ b = false ∧ spaced true s'
      else spaced false s'
  end.

End TextSpec.

Module Calendar.
Import GoTime.
Local Open Scope Z_scope.

(** The days of a 400-year cycle before year [y] of the cycle, as
    [daysSinceEpoch] counts them after the whole cycles. *)
Definition cycleDays (y : Z) : Z :=
  let n := y / 100 in
  let y := y - 100 * n in
  let d := daysPer100Years * n in
  let n := y / 4 in
  let y := y - 4 * n in
  let d := d + daysPer4Years * n in
  d + 365 * y.

(** The steps of [absDate] below the 400-year cycles: from the years
    [y] counted so far and day [d] of the cycle to the year and the day
    of the year. *)
Definition cycleSplit (y d : Z) : Z * Z :=
  let n := d / daysPer100Years in
  let n := n - Z.shiftr n 2 in
  let y := y + 100 * n in
  let d := d - daysPer100Years * n in
  let n := d / daysPer4Years in
  let y := y + 4 * n in
  let d := d - daysPer4Years * n in
  let n := d / 365 in
  let n := n - Z.shiftr n 2 in
  (y + n, d - 365 * n).

(** The last steps of [absDate]: month and day of the month of day
    [yday] of a year. *)
Definition monthDay (leap : bool) (yday : Z) : Z * Z :=
  if leap && (yday =? 31 + 29 - 1) then (2, 29)
  else
    let day := if leap && (yday >? 31 + 29 - 1) then yday - 1 else yday in
    let month := day / 31 in
    let end_ := daysBefore (month + 1) in
    let '(month, begin) :=
      if day >=? end_ then (month + 1, end_) else (month, daysBefore month) in
    (month + 1, day - begin + 1).

(** The day of the year that [Date] adds to the start of the year. *)
Definition yearDay (leap : bool) (month day : Z) : Z :=
  daysBefore (month - 1) + (if leap && (month >=? 3) then 1 else 0) + (day - 1).

Definition yearLength (leap : bool) : Z := if leap then 366 else 365.

Definition daysInLeap (leap : bool) (m : Z) : Z :=
  if (m =? 2) && leap then 29 else daysBefore m - daysBefore (m - 1).

Definition monthCheck (leap : bool) : bool :=
  forallb (fun m =>
    forallb (fun d =>
      let yd := yearDay leap m d in
      let '(m', d') := monthDay leap yd in
      (m' =? m) && (d' =? d) && (0 <=? yd) && (yd <? yearLength leap))
      (seqZ 1 (daysInLeap leap m)))
    (seqZ 1 12).

(** The byte of a decimal digit. *)
Definition digitChar (x : Z) : ascii := ascii_of_N (Z.to_N (x + 48)).

Definition digits : list Z := seqZ 0 10.

Definition twoDigitCheck : bool :=
  forallb (fun x => forallb (fun y =>
    String.eqb (appendInt (x * 10 + y) 2)
      (String (digitChar x) (String (digitChar y) EmptyString))) digits) digits.

Definition fourDigitCheck : bool :=
  forallb (fun x => forallb (fun y => forallb (fun z => forallb (fun w =>
    String.eqb (appendInt (((x * 10 + y) * 10 + z) * 10 + w) 4)
      (String (digitChar x) (String (digitChar y)
        (String (digitChar z) (String (digitChar w) EmptyString)))))
    digits) digits) digits) digits.

End Calendar.

Module AppSpec.
Import Text TextSpec App.

Definition premierRow : Row :=
  {| matchNameText := "Arsenal - Chelsea";
     leagueText := "Premier League" +:+ newline +:+ "  Round 5";
     leagueLinks := ["Round 5"];
     channelTitle := Some "Viaplay";
     timeText := "18:30" |}.

Definition ligueRow : Row :=
  {| matchNameText := "Lyon - Nantes";
     leagueText := "Ligue 1";
     leagueLinks := [];
     channelTitle := None;
     timeText := "21:00" |}.

(** Every record of a parsed schedule passed the league filter. *)
Definition filtered (schedule : gmap string (list match_)) : Prop :=
  ∀ date ms m, schedule !! date = Some ms → m ∈ ms →
    ∃ l, l ∈ leagues ∧ substring l (League m).

(** The date text of a header: its identifier without [match-day-]. *)
Definition dateOf (s : DayHeader) : string :=
  Replace (default "" (innerId s)) "match-day-" "".

(** The values of [dayNames]. *)
Definition swedishDays : list string :=
  ["Måndag"; "Tisdag"; "Onsdag"; "Torsdag"; "Fredag"; "Lördag"; "Söndag"].

Definition newYear2024 (rows : list Row) : DayHeader :=
  {| innerId := Some "match-day-2024-01-01"; tableRows := rows |}.

Definition unreadableDay : DayHeader :=
  {| innerId := Some "match-day-tomorrow"; tableRows := [ligueRow; premierRow] |}.

Definition unchanged (st : State) : Result :=
  {| after := st; events := []; panicked := false |}.

(** Midnight of 2024-01-01 UTC and some hours of that day. *)
Definition morning (hours : Z) : GoTime.Time :=
  GoTime.mkTime (63839664000 + 3600 * hours) 0.

Definition oneDay : gmap string (list match_) :=
  {[ "2024-01-01 - Måndag" :=
       [{| Name := "Arsenal - Chelsea"; League := "Premier League";
           Channel := "Viaplay"; Time := "18:30" |}] ]}.

End AppSpec.

Module ConcurrentSpec.
Import App Concurrent.

(** Two handlers at the very start of the process: the schedule is
    empty and the last refresh is the zero time. *)
Definition twoArrived : World :=
  mkWorld (mkState ∅ GoTime.zeroTime) false [] [Arrived; Arrived].

Definition twoWaiting : World :=
  mkWorld (mkState ∅ GoTime.zeroTime) false [] [Waiting; Waiting].

Definition twoServed : World :=
  mkWorld (mkState ∅ (AppSpec.morning 0)) false [Fetch; Fetch] [Served; Served].

End ConcurrentSpec.

Module TextMore.
Import Text.

(** The bytes of a string that are outside [\s], in their order. *)
Fixpoint nonSpaces (s : string) : string :=
  match s with
  | EmptyString => EmptyString
  | String c s' => if isSpace c then nonSpaces s' else String c (nonSpaces s')
  end.

End TextMore.

Module ParserMore.
Import Text App AppSpec.

(** The last header of [days] whose label is [label]. *)
Fixpoint lastWith (label : string) (days : list DayHeader) : option DayHeader :=
  match days with
  | [] => None
  | s :: days' =>
      match lastWith label days' with
      | Some s' => Some s'
      | None => if decide (dayLabel s = label) then Some s else None
      end
  end.

(** The records of a header: those of its rows that pass the filter, in
    the order of the rows. *)
Definition dayMatches (s : DayHeader) : list match_ :=
  omap extractRow (tableRows s).

(** The text [YYYY-MM-DD] of a date. *)
Definition isoDate (y m d : Z) : string :=
  GoTime.appendInt y 4 +:+ "-" +:+ GoTime.appendInt m 2 +:+ "-" +:+ GoTime.appendInt d 2.

(** The header whose identifier is [match-day-] followed by a date. *)
Definition dayOf (y m d : Z) (rows : list Row) : DayHeader :=
  {| innerId := Some ("match-day-" +:+ isoDate y m d); tableRows := rows |}.

(** Byte [c] does not occur in [s]. *)
Fixpoint noByte (c : ascii) (s : string) : Prop :=
  match s with
  | EmptyString => True
  | String a s' => a ≠ c ∧ noByte c s'
  end.

End ParserMore.

Module ConcurrentMore.
Import App Concurrent.

(** The sum of [f] over the handlers. *)
Definition weight (f : Handler → nat) (hs : list Handler) : nat :=
  sum_list (f <$> hs).

(** A handler that holds [mu]. *)
Definition holds (h : Handler) : nat :=
  match h with Holding | Finishing _ => 1 | _ => 0 end.

(** A handler that may still call [client.Get]. *)
Definition pending (h : Handler) : nat :=
  match h with Arrived | Waiting | Holding => 1 | _ => 0 end.

(** A world in which no handler has started and [mu] is free. *)
Definition quiet (w : World) : Prop :=
  mu w = false ∧ Forall (λ h, h = Arrived) (handlers w).

(** The handlers that hold [mu] are as many as [mu] says. *)
Definition locked_by_one (w : World) : Prop :=
  weight holds (handlers w) = if mu w then 1 else 0.

End ConcurrentMore.

Module Gregorian.
Local Open Scope Z_scope.

(** The leap years of the Gregorian calendar. *)
Definition leapYear (y : Z) : bool :=
  (y mod 4 =? 0) && (negb (y mod 100 =? 0) || (y mod 400 =? 0)).

(** The number of a day when January 1 of year 1 is day 1 (the fixed
    date of the calendrical literature): the days of the years before,
    the days of the months before, with the correction for February, and
    the day of the month. *)
Definition fixedDate (y m d : Z) : Z :=
  365 * (y - 1) + (y - 1) / 4 - (y - 1) / 100 + (y - 1) / 400
  + (367 * m - 362) / 12
  + (if m <=? 2 then 0 else if leapYear y then -1 else -2)
  + d.

(** The day of the week of a date, 0 for Sunday to 6 for Saturday: day 1
    is a Monday and the days of the week follow each other. *)
Definition dayOfWeek (y m d : Z) : Z := fixedDate y m d mod 7.

Definition englishName (w : Z) : string :=
  match w with
  | 0 => "Sunday" | 1 => "Monday" | 2 => "Tuesday" | 3 => "Wednesday"
  | 4 => "Thursday" | 5 => "Friday" | _ => "Saturday"
  end.

Definition swedishName (w : Z) : string :=
  match w with
  | 0 => "Söndag" | 1 => "Måndag" | 2 => "Tisdag" | 3 => "Onsdag"
  | 4 => "Torsdag" | 5 => "Fredag" | _ => "Lördag"
  end.

End Gregorian.

(** * Properties *)

(** ** Text: prefixes, substrings and the normal form of league names *)

Module TextFacts.
Import Text TextSpec.

Lemma append_assoc s1 s2 s3 : (s1 +:+ s2) +:+ s3 = s1 +:+ s2 +:+ s3.
Proof.
  induction s1 as [|c s1 IH]; [done|].
  change (String c ((s1 +:+ s2) +:+ s3) = String c (s1 +:+ s2 +:+ s3)). by f_equal.
Qed.

Lemma HasPrefix_spec s p : HasPrefix s p = true ↔ ∃ post, s = p +:+ post.
Proof.
  revert s. induction p as [|a p IH]; intros s; simpl.
  - split; [intros _; by exists s | done].
  - destruct s as [|c s]; simpl.
    + split; [done | intros [post H]; discriminate H].
    + case_decide as Hc.
      * subst c. rewrite IH. split; intros [post H]; exists post.
        -- by rewrite H.
        -- by injection H.
      * split; [done | intros [post H]; injection H; congruence].
Qed.

Lemma Contains_spec s sub : Contains s sub = true ↔ substring sub s.
Proof.
  unfold substring. induction s as [|c s IH].
  - simpl. rewrite orb_false_r, HasPrefix_spec. split.
    + intros [post H]. by exists "", post.
    + intros [[|a pre] [post H]]; [by exists post | discriminate H].
  - cbn [Contains]. rewrite orb_true_iff, HasPrefix_spec, IH. split.
    + intros [[post H] | (pre & post & H)].
      * by exists "", post.
      * exists (String c pre), post. by rewrite H.
    + intros [[|a pre] [post H]].
      * left. by exists post.
      * right. exists pre, post. by injection H.
Qed.

Lemma spaced_weaken b s : spaced b s → spaced false s.
Proof. destruct s as [|c s]; simpl; [done|]. destruct (isSpace c); intuition (first [discriminate | congruence | eauto]). Qed.

Lemma collapseRuns_spaced s : ∀ b, spaced b (collapseRuns b s).
Proof.
  induction s as [|c s IH]; intros b; simpl; [done|].
  destruct (isSpace c) eqn:Hc.
  - destruct b; [apply IH|]. simpl. split_and!; [done..|apply IH].
  - simpl. rewrite Hc. apply IH.
Qed.

Lemma collapseRuns_id s : ∀ b, spaced b s → collapseRuns b s = s.
Proof.
  induction s as [|c s IH]; intros b; simpl; [done|].
  destruct (isSpace c).
  - intros (-> & -> & H). by rewrite (IH true).
  - intros H. by rewrite (IH false).
Qed.

Lemma TrimLeft_id s : spaced true s → TrimLeft s = s.
Proof.
  destruct s as [|c s]; simpl; [done|]. case_decide as Hc; [|done].
  subst c. simpl. intuition (first [discriminate | congruence | eauto]).
Qed.

Lemma TrimLeft_spaced s : spaced false s → spaced true (TrimLeft s).
Proof.
  destruct s as [|c s]; simpl; [done|]. case_decide as Hc.
  - subst c. simpl. intros (_ & _ & H). by rewrite TrimLeft_id.
  - simpl. destruct (isSpace c); intuition (first [discriminate | congruence | eauto]).
Qed.

Lemma TrimRight_spaced s : ∀ b, spaced b s → spaced b (TrimRight s).
Proof.
  induction s as [|c s IH]; intros b; [done|].
  cbn [TrimRight]. intros H.
  assert (spaced b (String c (TrimRight s))) as H'.
  { revert H. cbn [spaced]. destruct (isSpace c); intuition (first [discriminate | congruence | eauto]). }
  destruct (TrimRight s) as [|a r]; [|done].
  case_decide; [done|]. revert H'. cbn [spaced]. destruct (isSpace c); intuition (first [discriminate | congruence | eauto]).
Qed.

Lemma TrimRight_idemp s : TrimRight (TrimRight s) = TrimRight s.
Proof.
  induction s as [|c s IH]; [done|]. cbn [TrimRight].
  destruct (TrimRight s) as [|a r] eqn:Hr.
  - case_decide as Hc; [done|]. simpl. by rewrite decide_False.
  - cbn [TrimRight]. cbn [TrimRight] in IH. by rewrite IH.
Qed.

Lemma Replace_newline_id b s : spaced b s → Replace s newline " " = s.
Proof.
  unfold Replace, newline. revert b.
  induction s as [|c s IH]; intros b; [done|].
  cbn [replaceFrom spaced HasPrefix]. case_decide as Hc.
  - subst c. simpl. intuition (first [discriminate | congruence | eauto]).
  - intros H. f_equal. destruct (isSpace c); [eapply IH, H | eapply IH, H].
Qed.

(** The result of [normalize] has single spaces only, none of them at
    either end. *)
Lemma normalize_spaced s : spaced true (normalize s).
Proof.
  unfold normalize, Trim, multipleSpaces_ReplaceAllString.
  apply TrimRight_spaced, TrimLeft_spaced, collapseRuns_spaced.
Qed.

Lemma normalize_fixed s : spaced true s → TrimRight s = s → normalize s = s.
Proof.
  intros Hs Hr. unfold normalize, Trim, multipleSpaces_ReplaceAllString.
  rewrite (Replace_newline_id true) by done.
  rewrite collapseRuns_id by by eapply spaced_weaken.
  by rewrite TrimLeft_id.
Qed.

(** C6. The normalisation of the league text (newlines to spaces, runs
    of whitespace to one space, spaces trimmed at both ends) is
    idempotent: normalising a normalised string changes nothing. *)
Theorem normalize_idempotent (s : string) :
  normalize (normalize s) = normalize s.
Proof.
  apply normalize_fixed; [apply normalize_spaced|].
  unfold normalize, Trim. apply TrimRight_idemp.
Qed.

End TextFacts.

(** ** Time: the calendar computations of [Date] and [absDate] *)

Module GoTimeFacts.
Import GoTime Calendar.
Local Open Scope Z_scope.

Lemma absDate_steps a :
  absDate a =
    let d := a / secondsPerDay in
    let n := d / daysPer400Years in
    let '(y, yday) := cycleSplit (400 * n) (d - daysPer400Years * n) in
    let year := i64 (y + absoluteZeroYear) in
    let '(month, day) := monthDay (isLeap year) yday in
    (year, month, day).
Proof.
  unfold absDate, cycleSplit, monthDay. cbv zeta.
  repeat match goal with |- context [if ?c then _ else _] => destruct c end;
    reflexivity.
Qed.

Lemma capped_quotient k c x :
  0 < k → 0 <= c <= 3 → 0 <= x → x < k + (if decide (c = 3) then 1 else 0) →
  let n := (k * c + x) / k in n - Z.shiftr n 2 = c.
Proof.
  intros Hk Hc Hx Hlt n. rewrite Z.shiftr_div_pow2 by lia. change (2 ^ 2) with 4.
  assert (n = c ∨ (c = 3 ∧ n = 4)) as Hn.
  { subst n. case_decide.
    - destruct (decide (x = k)) as [->|].
      + right. split; [done|]. replace (k * c + k) with ((c + 1) * k) by lia.
        rewrite Z.div_mul by lia. lia.
      + left. symmetry. apply (Z.div_unique_pos _ _ _ x); lia.
    - left. symmetry. apply (Z.div_unique_pos _ _ _ x); lia. }
  destruct Hn as [-> | [-> ->]]; [|done].
  assert (c / 4 = 0) as ->; [|lia]. apply Z.div_small. lia.
Qed.

Lemma isLeap_cycle c q a :
  0 <= c <= 3 → 0 <= q <= 24 → 0 <= a <= 3 →
  isLeap (100 * c + 4 * q + a + 1) = bool_decide (a = 3 ∧ (q ≠ 24 ∨ c = 3)).
Proof.
  intros Hc Hq Ha. unfold isLeap. rewrite !Z.rem_mod_nonneg by lia.
  apply eq_true_iff_eq. rewrite bool_decide_eq_true, andb_true_iff, orb_true_iff,
    negb_true_iff, Z.eqb_neq, !Z.eqb_eq.
  split; intros; Z.div_mod_to_equations; lia.
Qed.

(** Within one cycle, [cycleSplit] undoes [cycleDays]. *)
Lemma cycle_roundtrip y0 r yd :
  0 <= r < 400 → 0 <= yd < yearLength (isLeap (r + 1)) →
  cycleSplit y0 (cycleDays r + yd) = (y0 + r, yd) ∧
  0 <= cycleDays r + yd < daysPer400Years.
Proof.
  intros Hr Hyd.
  set (c := r / 100). set (q := (r - 100 * c) / 4). set (a := r - 100 * c - 4 * q).
  assert (0 <= c <= 3 ∧ 0 <= q <= 24 ∧ 0 <= a <= 3) as (Hc & Hq & Ha).
  { subst a q c. Z.div_mod_to_equations. lia. }
  assert (r = 100 * c + 4 * q + a) as Er by (subst a; lia).
  assert (cycleDays r = 36524 * c + 1461 * q + 365 * a) as ->.
  { unfold cycleDays, daysPer100Years, daysPer4Years. cbv zeta. fold c. fold q. lia. }
  rewrite Er, isLeap_cycle in Hyd by done. unfold yearLength in Hyd.
  assert (0 <= yd ∧ yd < 365 + (if decide (a = 3) then 1 else 0) ∧
          (q = 24 → a = 3 → c ≠ 3 → yd < 365)) as (Hyd0 & Hyd1 & Hyd2).
  { case_bool_decide; case_decide; lia. }
  clearbody c q a. subst r. clear Hr Hyd.
  split; [|unfold daysPer400Years; case_decide; lia].
  unfold cycleSplit, daysPer100Years, daysPer4Years. cbv zeta.
  change (365 * 100 + 24) with 36524. change (365 * 4 + 1) with 1461.
  replace (36524 * c + 1461 * q + 365 * a + yd)
    with (36524 * c + (1461 * q + 365 * a + yd)) by lia.
  rewrite (capped_quotient 36524 c) by (repeat case_decide; lia).
  replace (36524 * c + (1461 * q + 365 * a + yd) - 36524 * c)
    with (1461 * q + (365 * a + yd)) by lia.
  assert ((1461 * q + (365 * a + yd)) / 1461 = q) as ->.
  { symmetry. apply (Z.div_unique_pos _ _ _ (365 * a + yd)); case_decide; lia. }
  replace (1461 * q + (365 * a + yd) - 1461 * q) with (365 * a + yd) by lia.
  rewrite (capped_quotient 365 a) by lia.
  f_equal; lia.
Qed.

Lemma monthCheck_true : monthCheck true && monthCheck false = true.
Proof. vm_compute. reflexivity. Qed.

(** Within one year, [monthDay] undoes [yearDay]. *)
Lemma month_roundtrip leap m d :
  1 <= m <= 12 → 1 <= d <= daysInLeap leap m →
  monthDay leap (yearDay leap m d) = (m, d) ∧
  0 <= yearDay leap m d < yearLength leap.
Proof.
  intros Hm Hd.
  assert (monthCheck leap = true) as H.
  { pose proof monthCheck_true as H. apply andb_true_iff in H. by destruct leap. }
  unfold monthCheck in H. rewrite forallb_forall in H.
  specialize (H m). rewrite <- list_elem_of_In, elem_of_seqZ in H.
  specialize (H ltac:(lia)). rewrite forallb_forall in H.
  specialize (H d). rewrite <- list_elem_of_In, elem_of_seqZ in H.
  specialize (H ltac:(lia)). cbv zeta in H.
  destruct (monthDay leap (yearDay leap m d)) as [m' d'].
  rewrite !andb_true_iff, !Z.eqb_eq, Z.leb_le, Z.ltb_lt in H.
  destruct H as [[[-> ->] ?] ?]. done.
Qed.

Lemma isLeap_shift y k r :
  0 <= y → 0 <= r → y = 400 * k + r + 1 → isLeap y = isLeap (r + 1).
Proof.
  intros Hy Hr ->. unfold isLeap. rewrite !Z.rem_mod_nonneg by lia.
  apply eq_true_iff_eq. rewrite !andb_true_iff, !orb_true_iff,
    !negb_true_iff, !Z.eqb_neq, !Z.eqb_eq.
  split; intros; Z.div_mod_to_equations; lia.
Qed.

(** The fields of a date that [Parse] accepts come back from the time
    that [Date] builds. *)
Lemma absDate_Date y m d :
  0 <= y <= 9999 → 1 <= m <= 12 → 1 <= d <= daysIn m y →
  absDate (abs (Date y m d)) = (y, m, d).
Proof.
  intros Hy Hm Hd.
  assert (norm y (m - 1) 12 = (y, m - 1)) as Hnorm.
  { unfold norm. replace (m - 1 <? 0) with false by lia.
    by replace (m - 1 >=? 12) with false by lia. }
  unfold Date. rewrite Hnorm. cbv zeta.
  replace (m - 1 + 1) with m by lia.
  set (Y := y + 292277022399).
  set (n := Y / 400). set (r := Y - 400 * n).
  assert (0 <= r < 400 ∧ 730692555 <= n <= 730692580) as [Hr Hn].
  { subst r n Y. Z.div_mod_to_equations. lia. }
  assert (daysSinceEpoch y = daysPer400Years * n + cycleDays r) as ->.
  { unfold daysSinceEpoch, cycleDays, absoluteZeroYear, u64. cbv zeta.
    rewrite Z.mod_small by lia.
    replace (y - -292277022399) with Y by (subst Y; lia).
    fold n. fold r. lia. }
  assert (isLeap y = isLeap (r + 1)) as Hleap.
  { apply (isLeap_shift y (n - 730692556) r); subst r Y; lia. }
  destruct (month_roundtrip (isLeap y) m d Hm Hd) as [Hmd Hyd].
  destruct (cycle_roundtrip (400 * n) r (yearDay (isLeap y) m d) Hr) as [Hcs Hcd].
  { by rewrite <- Hleap. }
  set (yd := yearDay (isLeap y) m d) in *.
  set (D := daysPer400Years * n + (cycleDays r + yd)).
  assert ((if isLeap y && (m >=? 3)
           then daysPer400Years * n + cycleDays r + daysBefore (m - 1) + 1
           else daysPer400Years * n + cycleDays r + daysBefore (m - 1)) + (d - 1) = D) as ->.
  { subst D yd. unfold yearDay. destruct (isLeap y && (m >=? 3)); lia. }
  assert (abs {| sec := i64 (u64 (D * secondsPerDay) + absoluteToInternal); nsec := 0 |}
          = D * secondsPerDay) as ->.
  { unfold abs, u64, i64, internalToAbsolute, absoluteToInternal, absoluteZeroYear,
      secondsPerDay. cbn [sec].
    unfold daysPer400Years in D, Hcd.
    rewrite (Z.mod_small (D * _)) by (subst D; lia).
    rewrite (Z.mod_small (_ + 2 ^ 63)) by (subst D; lia).
    rewrite Z.mod_small by (subst D; lia). lia. }
  rewrite absDate_steps. cbv zeta.
  rewrite Z.div_mul by done.
  assert (D / daysPer400Years = n) as ->.
  { symmetry. apply (Z.div_unique_pos _ _ _ (cycleDays r + yd)); subst D; lia. }
  replace (D - daysPer400Years * n) with (cycleDays r + yd) by (subst D; lia).
  rewrite Hcs.
  assert (i64 (400 * n + r + absoluteZeroYear) = y) as ->.
  { unfold i64, absoluteZeroYear. rewrite Z.mod_small by (subst r Y; lia).
    subst r Y. lia. }
  by rewrite Hmd.
Qed.

Lemma digit_char c x : digit c = Some x → 0 <= x <= 9 ∧ c = digitChar x.
Proof.
  unfold digit, digitChar. cbv zeta.
  destruct ((48 <=? _) && (_ <=? 57)) eqn:E; [|done].
  intros [= <-]. apply andb_true_iff in E as [?%Z.leb_le ?%Z.leb_le].
  split; [lia|]. replace (Z.of_N (N_of_ascii c) - 48 + 48) with (Z.of_N (N_of_ascii c)) by lia.
  by rewrite N2Z.id, ascii_N_embedding.
Qed.

Lemma digitChecks_true : twoDigitCheck && fourDigitCheck = true.
Proof. vm_compute. reflexivity. Qed.

Lemma in_digits x : 0 <= x <= 9 → In x digits.
Proof. intros. apply list_elem_of_In, elem_of_seqZ. lia. Qed.

Lemma appendInt_two a b x y :
  digit a = Some x → digit b = Some y →
  appendInt (x * 10 + y) 2 = String a (String b EmptyString).
Proof.
  intros [Hx ->]%digit_char [Hy ->]%digit_char.
  pose proof digitChecks_true as [H _]%andb_true_iff.
  unfold twoDigitCheck in H. rewrite forallb_forall in H.
  specialize (H x (in_digits x Hx)). rewrite forallb_forall in H.
  specialize (H y (in_digits y Hy)). by apply String.eqb_eq in H.
Qed.

Lemma appendInt_four a b c d x y z w :
  digit a = Some x → digit b = Some y → digit c = Some z → digit d = Some w →
  appendInt (((x * 10 + y) * 10 + z) * 10 + w) 4
  = String a (String b (String c (String d EmptyString))).
Proof.
  intros [Hx ->]%digit_char [Hy ->]%digit_char [Hz ->]%digit_char [Hw ->]%digit_char.
  pose proof digitChecks_true as [_ H]%andb_true_iff.
  unfold fourDigitCheck in H. rewrite forallb_forall in H.
  specialize (H x (in_digits x Hx)). rewrite forallb_forall in H.
  specialize (H y (in_digits y Hy)). rewrite forallb_forall in H.
  specialize (H z (in_digits z Hz)). rewrite forallb_forall in H.
  specialize (H w (in_digits w Hw)). by apply String.eqb_eq in H.
Qed.

Lemma getnum_inv value n rest :
  getnum value = Some (n, rest) →
  ∃ a b x y, value = String a (String b rest) ∧ digit a = Some x ∧
             digit b = Some y ∧ n = x * 10 + y.
Proof.
  destruct value as [|a [|b r]]; try done. unfold getnum. intros H.
  destruct (digit a) as [x|] eqn:Ha; [|done].
  destruct (digit b) as [y|] eqn:Hb; [|done].
  simpl in H. injection H as <- <-. by exists a, b, x, y.
Qed.

Lemma getyear_inv value n rest :
  getyear value = Some (n, rest) →
  ∃ a b c d x y z w,
    value = String a (String b (String c (String d rest))) ∧
    digit a = Some x ∧ digit b = Some y ∧ digit c = Some z ∧ digit d = Some w ∧
    n = ((x * 10 + y) * 10 + z) * 10 + w.
Proof.
  destruct value as [|a [|b [|c [|d r]]]]; try done. unfold getyear. intros H.
  destruct (digit a) as [x|] eqn:Ha; [|done].
  destruct (digit b) as [y|] eqn:Hb; [|done].
  destruct (digit c) as [z|] eqn:Hc; [|done].
  destruct (digit d) as [w|] eqn:Hd; [|done].
  simpl in H. injection H as <- <-. by exists a, b, c, d, x, y, z, w.
Qed.

Lemma skipDash_inv value rest :
  skipDash value = Some rest → value = String "-" rest.
Proof.
  destruct value as [|c r]; [done|]. simpl. case_decide; [|done].
  by intros [= <-]; subst.
Qed.

(** What [Parse] accepts: four digits, a dash, two digits of a month, a
    dash, two digits of a day of that month, nothing more. *)
Lemma Parse_inv value t :
  Parse value = Some t →
  ∃ year month day ys ms ds,
    value = ys +:+ "-" +:+ ms +:+ "-" +:+ ds ∧
    appendInt year 4 = ys ∧ appendInt month 2 = ms ∧ appendInt day 2 = ds ∧
    0 <= year <= 9999 ∧ 1 <= month <= 12 ∧ 1 <= day <= daysIn month year ∧
    t = Date year month day.
Proof.
  unfold Parse. intros H.
  destruct (getyear value) as [[year v1]|] eqn:Hy; [|done]. simpl in H.
  destruct (skipDash v1) as [v2|] eqn:H1; [|done]. simpl in H.
  destruct (getnum v2) as [[month v3]|] eqn:Hm; [|done]. simpl in H.
  destruct (guard (1 <= month <= 12)) as [Gm|] eqn:EGm; [|done]. simpl in H.
  destruct (skipDash v3) as [v4|] eqn:H2; [|done]. simpl in H.
  destruct (getnum v4) as [[day v5]|] eqn:Hd; [|done]. simpl in H.
  destruct (guard (v5 = EmptyString)) as [Ge|] eqn:EGe; [|done]. simpl in H.
  destruct (guard (1 <= day <= daysIn month year)) as [Gd|] eqn:EGd; [|done].
  simpl in H. injection H as <-. subst v5. clear EGm EGe EGd.
  apply getyear_inv in Hy as (a & b & c & d & x & y & z & w & -> & Ha & Hb & Hc & Hd' & ->).
  apply skipDash_inv in H1 as ->. apply skipDash_inv in H2 as ->.
  apply getnum_inv in Hm as (m1 & m2 & mx & my & -> & Hm1 & Hm2 & ->).
  apply getnum_inv in Hd as (d1 & d2 & dx & dy & -> & Hd1 & Hd2 & ->).
  exists (((x * 10 + y) * 10 + z) * 10 + w), (mx * 10 + my), (dx * 10 + dy),
    (String a (String b (String c (String d EmptyString)))),
    (String m1 (String m2 EmptyString)), (String d1 (String d2 EmptyString)).
  apply digit_char in Ha as Ha', Hb as Hb', Hc as Hc', Hd' as Hd''.
  split_and!; try done; try lia.
  - by apply appendInt_four.
  - by apply appendInt_two.
  - by apply appendInt_two.
Qed.

(** Formatting a parsed date gives back the text that was parsed. *)
Lemma Format_date_Parse value t :
  Parse value = Some t → Format_date t = value +:+ " - ".
Proof.
  intros (year & month & day & ys & ms & ds & -> & Hy & Hm & Hd & ? & ? & ? & ->)%Parse_inv.
  unfold Format_date. rewrite absDate_Date by done. rewrite Hy, Hm, Hd.
  by rewrite !TextFacts.append_assoc.
Qed.

Lemma Format_date_zeroTime : Format_date zeroTime = "0001-01-01 - ".
Proof. reflexivity. Qed.

Lemma absWeekday_range a : 0 <= absWeekday a < 7.
Proof.
  unfold absWeekday, secondsPerWeek, secondsPerDay. cbv zeta.
  Z.div_mod_to_equations. lia.
Qed.

(** [Format_weekday] always yields one of the seven names of [days]. *)
Lemma Format_weekday_days t : Format_weekday t ∈ days.
Proof.
  unfold Format_weekday. pose proof (absWeekday_range (abs t)) as H.
  destruct (absWeekday (abs t)) as [|p|p]; [| |lia].
  - apply list_elem_of_In. simpl. tauto.
  - assert (Z.to_nat (Z.pos p) < 7)%nat as Hp by lia.
    revert Hp. generalize (Z.to_nat (Z.pos p)). intros n Hn.
    do 7 (destruct n as [|n]; [apply list_elem_of_In; simpl; tauto|]). lia.
Qed.

End GoTimeFacts.

(** ** Time: the day of the week *)

Module WeekdayFacts.
Import GoTime Calendar Gregorian GoTimeFacts.
Local Open Scope Z_scope.

Lemma isLeap_leapYear y : 0 <= y → isLeap y = leapYear y.
Proof. intros Hy. unfold isLeap, leapYear. by rewrite !Z.rem_mod_nonneg by lia. Qed.

Lemma yearDay_fixed leap m d :
  1 <= m <= 12 →
  yearDay leap m d + 1
  = (367 * m - 362) / 12 + (if m <=? 2 then 0 else if leap then -1 else -2) + d.
Proof.
  intros Hm.
  assert (daysBefore (m - 1) + (if leap && (m >=? 3) then 1 else 0) + 1
          = (367 * m - 362) / 12 + (if m <=? 2 then 0 else if leap then -1 else -2) + 1)
    as E.
  { assert (m ∈ seqZ 1 12) as Hin by (apply elem_of_seqZ; lia).
    apply list_elem_of_In in Hin. simpl in Hin.
    destruct Hin as [<-|[<-|[<-|[<-|[<-|[<-|[<-|[<-|[<-|[<-|[<-|[<-|[]]]]]]]]]]]]];
      destruct leap; vm_compute; reflexivity. }
  unfold yearDay. lia.
Qed.

(** The days from the absolute epoch to a date that [Parse] accepts. *)
Lemma abs_Date y m d :
  0 <= y <= 9999 → 1 <= m <= 12 → 1 <= d <= daysIn m y →
  abs (Date y m d) = (fixedDate y m d - 1 + 146097 * 730692556) * secondsPerDay.
Proof.
  intros Hy Hm Hd.
  assert (norm y (m - 1) 12 = (y, m - 1)) as Hnorm.
  { unfold norm. replace (m - 1 <? 0) with false by lia.
    by replace (m - 1 >=? 12) with false by lia. }
  unfold Date. rewrite Hnorm. cbv zeta.
  replace (m - 1 + 1) with m by lia.
  set (Y := y + 292277022399).
  set (n := Y / 400). set (r := Y - 400 * n).
  assert (0 <= r < 400 ∧ 730692555 <= n <= 730692580) as [Hr Hn].
  { subst r n Y. Z.div_mod_to_equations. lia. }
  assert (daysSinceEpoch y = daysPer400Years * n + cycleDays r) as ->.
  { unfold daysSinceEpoch, cycleDays, absoluteZeroYear, u64. cbv zeta.
    rewrite Z.mod_small by lia.
    replace (y - -292277022399) with Y by (subst Y; lia).
    fold n. fold r. lia. }
  assert (isLeap y = isLeap (r + 1)) as Hleap.
  { apply (isLeap_shift y (n - 730692556) r); subst r Y; lia. }
  destruct (month_roundtrip (isLeap y) m d Hm Hd) as [_ Hyd].
  destruct (cycle_roundtrip 0 r (yearDay (isLeap y) m d) Hr) as [_ Hcd].
  { by rewrite <- Hleap. }
  pose proof (yearDay_fixed (isLeap y) m d Hm) as Hfix.
  rewrite (isLeap_leapYear y) in Hfix at 2 by lia.
  set (yd := yearDay (isLeap y) m d) in *.
  set (D := daysPer400Years * n + (cycleDays r + yd)).
  assert ((if isLeap y && (m >=? 3)
           then daysPer400Years * n + cycleDays r + daysBefore (m - 1) + 1
           else daysPer400Years * n + cycleDays r + daysBefore (m - 1)) + (d - 1) = D) as ->.
  { subst D yd. unfold yearDay. destruct (isLeap y && (m >=? 3)); lia. }
  assert (abs {| sec := i64 (u64 (D * secondsPerDay) + absoluteToInternal); nsec := 0 |}
          = D * secondsPerDay) as ->.
  { unfold abs, u64, i64, internalToAbsolute, absoluteToInternal, absoluteZeroYear,
      secondsPerDay. cbn [sec].
    unfold daysPer400Years in D, Hcd.
    rewrite (Z.mod_small (D * _)) by (subst D; lia).
    rewrite (Z.mod_small (_ + 2 ^ 63)) by (subst D; lia).
    rewrite Z.mod_small by (subst D; lia). lia. }
  f_equal. subst D.
  assert (cycleDays r
          = 365 * (y - 1) + (y - 1) / 4 - (y - 1) / 100 + (y - 1) / 400
            - 146097 * (n - 730692556)) as Hc.
  { unfold cycleDays, daysPer100Years, daysPer4Years. cbv zeta.
    assert (y - 1 = 400 * (n - 730692556) + r) as -> by (subst r Y; lia).
    clearbody r n. Z.div_mod_to_equations. lia. }
  unfold fixedDate, daysPer400Years. lia.
Qed.

Lemma absWeekday_days X :
  0 <= X → (X + 1) * secondsPerDay < 2 ^ 64 →
  absWeekday (X * secondsPerDay) = (X + 1) mod 7.
Proof.
  intros H0 H1. unfold absWeekday, secondsPerWeek, u64. cbv zeta.
  replace (X * secondsPerDay + 1 * secondsPerDay) with ((X + 1) * secondsPerDay) by lia.
  rewrite (Z.mod_small _ (2 ^ 64)) by (unfold secondsPerDay in *; lia).
  rewrite Z.mul_mod_distr_r by done. by rewrite Z.div_mul.
Qed.

(** The weekday that [Format] prints for a date that [Parse] accepts is
    the day of the week of that date. *)
Lemma Format_weekday_Date y m d :
  0 <= y <= 9999 → 1 <= m <= 12 → 1 <= d <= daysIn m y →
  Format_weekday (Date y m d) = englishName (dayOfWeek y m d).
Proof.
  intros Hy Hm Hd. unfold Format_weekday. rewrite abs_Date by done.
  assert (-366 <= fixedDate y m d - 1 <= 3652424) as Hb.
  { destruct (month_roundtrip (isLeap y) m d Hm Hd) as [_ Hyd].
    pose proof (yearDay_fixed (isLeap y) m d Hm) as Hfix.
    rewrite (isLeap_leapYear y) in Hfix at 2 by lia.
    unfold fixedDate. unfold yearLength in Hyd.
    destruct (isLeap y); Z.div_mod_to_equations; lia. }
  rewrite absWeekday_days by (unfold secondsPerDay; lia).
  replace (fixedDate y m d - 1 + 146097 * 730692556 + 1)
    with (fixedDate y m d + 15250284336276 * 7) by lia.
  rewrite Z.mod_add by done. fold (dayOfWeek y m d).
  assert (0 <= dayOfWeek y m d < 7) as Hw by (apply Z.mod_pos_bound; lia).
  assert (dayOfWeek y m d ∈ seqZ 0 7) as Hin by (apply elem_of_seqZ; lia).
  apply list_elem_of_In in Hin. simpl in Hin.
  destruct Hin as [<-|[<-|[<-|[<-|[<-|[<-|[<-|[]]]]]]]]; reflexivity.
Qed.

End WeekdayFacts.

(** ** The scraper: league filter, day labels, day limit *)

Module AppFacts.
Import Text TextSpec TextFacts App AppSpec.

Lemma interested_spec league ls :
  interested league ls = true ↔ ∃ l, l ∈ ls ∧ substring l league.
Proof.
  induction ls as [|l ls IH]; simpl.
  - split; [done | intros (l & Hl & _); by apply elem_of_nil in Hl].
  - destruct (Contains league l) eqn:Hc.
    + split; [intros _ | done]. exists l. split; [left | by apply Contains_spec].
    + rewrite IH. split.
      * intros (l' & Hl' & Hs). exists l'. split; [by right | done].
      * intros (l' & Hl' & Hs). apply elem_of_cons in Hl' as [-> | Hl'].
        -- apply Contains_spec in Hs. congruence.
        -- by exists l'.
Qed.

Lemma extractRow_Some ms m :
  extractRow ms = Some m →
  League m = rowLeague ms ∧ ∃ l, l ∈ leagues ∧ substring l (League m).
Proof.
  unfold extractRow. cbv zeta.
  destruct (interested (rowLeague ms) leagues) eqn:Hi; simpl; [|done].
  apply interested_spec in Hi. by intros [= <-].
Qed.

Lemma extractRow_None ms :
  (∀ l, l ∈ leagues → ¬ substring l (rowLeague ms)) → extractRow ms = None.
Proof.
  intros Hno. unfold extractRow. cbv zeta.
  destruct (interested (rowLeague ms) leagues) eqn:Hi; simpl; [|done].
  apply interested_spec in Hi as (l & Hl & Hs). by destruct (Hno l Hl).
Qed.

(** C4. A row yields a Match record only if its normalised league text
    contains one of the configured league names as a substring (bytes
    compared as they are, so case matters), and the record carries that
    normalised text; a row whose normalised league text contains none of
    them yields no record. *)
Theorem league_filter (ms : Row) :
  (∀ m, extractRow ms = Some m →
     League m = rowLeague ms ∧ ∃ l, l ∈ leagues ∧ substring l (League m)) ∧
  ((∀ l, l ∈ leagues → ¬ substring l (rowLeague ms)) → extractRow ms = None).
Proof. split; [apply extractRow_Some | apply extractRow_None]. Qed.

Lemma league_filter_witness :
  extractRow ligueRow = None ∧
  ∃ m, extractRow premierRow = Some m ∧ League m = "Premier League" ∧
       ∃ l, l ∈ leagues ∧ substring l (League m).
Proof.
  split.
  - apply (proj2 (league_filter ligueRow)).
    intros l Hl Hs. apply Contains_spec in Hs.
    apply list_elem_of_singleton in Hl. subst l. vm_compute in Hs. discriminate Hs.
  - eexists. split; [reflexivity|]. split; [reflexivity|].
    apply (proj1 (league_filter premierRow)). reflexivity.
Defined.

Lemma processRow_filtered date schedule ms :
  filtered schedule → filtered (processRow date schedule ms).
Proof.
  intros Hf. unfold processRow.
  destruct (extractRow ms) as [m|] eqn:Hm; [|done].
  intros date' ms' m' Hl Hin. unfold appendMatch in Hl.
  destruct (decide (date = date')) as [<-|Hne].
  - rewrite lookup_insert_eq in Hl. injection Hl as <-.
    apply elem_of_app in Hin as [Hin | ->%list_elem_of_singleton].
    + destruct (schedule !! date) as [old|] eqn:Ho; simpl in Hin.
      * by eapply Hf.
      * by apply elem_of_nil in Hin.
    + by apply (extractRow_Some ms).
  - rewrite lookup_insert_ne in Hl by done. by eapply Hf.
Qed.

Lemma foldl_processRow_filtered date rows : ∀ schedule,
  filtered schedule → filtered (foldl (processRow date) schedule rows).
Proof.
  induction rows as [|ms rows IH]; intros schedule Hf; [done|].
  simpl. by apply IH, processRow_filtered.
Qed.

Lemma processDay_filtered i schedule s :
  filtered schedule → filtered (processDay i schedule s).
Proof.
  intros Hf. unfold processDay. case_decide; [done|].
  apply foldl_processRow_filtered. intros date ms m Hl Hin.
  destruct (decide (dayLabel s = date)) as [<-|Hne].
  - rewrite lookup_insert_eq in Hl. injection Hl as <-. by apply elem_of_nil in Hin.
  - rewrite lookup_insert_ne in Hl by done. by eapply Hf.
Qed.

Lemma eachDay_filtered days : ∀ i schedule,
  filtered schedule → filtered (eachDay i schedule days).
Proof.
  induction days as [|s days IH]; intros i schedule Hf; [done|].
  simpl. by apply IH, processDay_filtered.
Qed.

Lemma parseSchedule_filtered doc : filtered (parseSchedule doc).
Proof. apply eachDay_filtered. intros date ms m Hl. by rewrite lookup_empty in Hl. Qed.

(** *** The day limit *)

Lemma processRow_lookup_ne date date' schedule ms :
  date ≠ date' → processRow date schedule ms !! date' = schedule !! date'.
Proof.
  intros Hne. unfold processRow, appendMatch.
  destruct (extractRow ms); [by rewrite lookup_insert_ne | done].
Qed.

(** The rows of a day, filtered, in the order of the document. *)
Lemma foldl_processRow_lookup date rows : ∀ schedule old,
  schedule !! date = Some old →
  foldl (processRow date) schedule rows !! date = Some (old ++ omap extractRow rows).
Proof.
  induction rows as [|ms rows IH]; intros schedule old Ho; simpl.
  - by rewrite app_nil_r.
  - unfold processRow at 2. destruct (extractRow ms) as [m|] eqn:Hm.
    + rewrite (IH _ (old ++ [m])).
      * by rewrite <- app_assoc.
      * unfold appendMatch. by rewrite lookup_insert_eq, Ho.
    + by apply IH.
Qed.

Lemma foldl_processRow_lookup_ne date date' rows : ∀ schedule,
  date ≠ date' → foldl (processRow date) schedule rows !! date' = schedule !! date'.
Proof.
  induction rows as [|ms rows IH]; intros schedule Hne; [done|].
  simpl. by rewrite IH, processRow_lookup_ne.
Qed.

Lemma processDay_lookup i schedule s :
  (i < daysToShow)%nat →
  processDay i schedule s !! dayLabel s = Some (omap extractRow (tableRows s)).
Proof.
  intros Hi. unfold processDay. rewrite decide_False by lia.
  by rewrite (foldl_processRow_lookup _ _ _ []) by apply lookup_insert_eq.
Qed.

Lemma processDay_lookup_ne i schedule s date :
  dayLabel s ≠ date → processDay i schedule s !! date = schedule !! date.
Proof.
  intros Hne. unfold processDay. case_decide; [done|].
  by rewrite foldl_processRow_lookup_ne, lookup_insert_ne.
Qed.

Lemma processDay_dom i schedule s :
  (i < daysToShow)%nat → dom (processDay i schedule s) = {[dayLabel s]} ∪ dom schedule.
Proof.
  intros Hi. apply set_eq. intros date.
  rewrite elem_of_union, elem_of_singleton, !elem_of_dom.
  destruct (decide (dayLabel s = date)) as [<-|Hne].
  - rewrite processDay_lookup by done. split; [by left | by eexists].
  - rewrite processDay_lookup_ne by done. split; [by right | by intros [?|?]].
Qed.

Lemma processDay_skip i schedule s :
  (daysToShow <= i)%nat → processDay i schedule s = schedule.
Proof. intros Hi. unfold processDay. by rewrite decide_True. Qed.

Lemma eachDay_skip days : ∀ i schedule,
  (daysToShow <= i)%nat → eachDay i schedule days = schedule.
Proof.
  induction days as [|s days IH]; intros i schedule Hi; [done|].
  simpl. rewrite processDay_skip by done. apply IH. lia.
Qed.

Lemma eachDay_take days : ∀ i schedule,
  eachDay i schedule days = eachDay i schedule (take (daysToShow - i) days).
Proof.
  induction days as [|s days IH]; intros i schedule.
  - by rewrite take_nil.
  - destruct (decide (daysToShow <= i)%nat) as [Hi|Hi].
    + replace (daysToShow - i)%nat with 0%nat by lia. simpl.
      rewrite processDay_skip by done. apply eachDay_skip. lia.
    + replace (daysToShow - i)%nat with (S (daysToShow - S i)) by lia.
      simpl. apply IH.
Qed.

Lemma eachDay_dom days : ∀ i schedule,
  dom (eachDay i schedule days)
  = dom schedule ∪ list_to_set (dayLabel <$> take (daysToShow - i) days).
Proof.
  induction days as [|s days IH]; intros i schedule.
  - rewrite take_nil. simpl. by rewrite (right_id_L ∅ (∪)).
  - destruct (decide (daysToShow <= i)%nat) as [Hi|Hi].
    + rewrite eachDay_skip by done.
      replace (daysToShow - i)%nat with 0%nat by lia. simpl.
      by rewrite (right_id_L ∅ (∪)).
    + replace (daysToShow - i)%nat with (S (daysToShow - S i)) by lia.
      simpl. rewrite IH, processDay_dom by lia.
      apply set_eq. intros x. rewrite !elem_of_union. tauto.
Qed.

Lemma processDay_size i schedule s :
  size (processDay i schedule s) ≤ S (size schedule).
Proof.
  destruct (decide (daysToShow <= i)%nat) as [Hi|Hi].
  - rewrite processDay_skip by done. lia.
  - rewrite <- !(size_dom (D := gset string)), processDay_dom by lia.
    rewrite (comm_L (∪)), size_union_alt.
    assert (size ({[dayLabel s]} ∖ dom schedule : gset string) ≤ 1); [|lia].
    rewrite <- (size_singleton (C := gset string) (dayLabel s)).
    apply subseteq_size. apply subseteq_difference_l. done.
Qed.

Lemma eachDay_size days : ∀ i schedule,
  size (eachDay i schedule days) ≤ size schedule + (daysToShow - i).
Proof.
  induction days as [|s days IH]; intros i schedule; simpl; [lia|].
  destruct (decide (daysToShow <= i)%nat) as [Hi|Hi].
  - rewrite processDay_skip, eachDay_skip by lia. lia.
  - etrans; [apply IH|]. pose proof (processDay_size i schedule s). lia.
Qed.

(** C5. Whatever the document, the schedule built from it has at most
    [daysToShow] (10) day entries, and it is the schedule built from the
    first 10 day headers in document order: its keys are the labels of
    those headers, and headers beyond the tenth add nothing. *)
Theorem schedule_day_limit (doc : Document) :
  size (parseSchedule doc) ≤ daysToShow ∧
  parseSchedule doc = parseSchedule (take daysToShow doc) ∧
  dom (parseSchedule doc) = list_to_set (dayLabel <$> take daysToShow doc).
Proof.
  unfold parseSchedule. split_and!.
  - pose proof (eachDay_size doc 0 ∅) as H. rewrite map_size_empty in H. lia.
  - apply (eachDay_take doc 0).
  - rewrite eachDay_dom, dom_empty_L. by rewrite (left_id_L ∅ (∪)).
Qed.

(** *** Day labels *)

Lemma dayLabel_eq s :
  dayLabel s =
    let t := default GoTime.zeroTime (GoTime.Parse (dateOf s)) in
    GoTime.Format_date t +:+ default "" (dayNames !! GoTime.Format_weekday t).
Proof. reflexivity. Qed.

(** Each name of [time]'s weekday table is a key of [dayNames]. *)
Lemma dayNames_days en :
  en ∈ GoTime.days → ∃ sv, dayNames !! en = Some sv ∧ sv ∈ swedishDays ∧ sv ≠ "".
Proof.
  intros Hen. apply list_elem_of_In in Hen. simpl in Hen.
  destruct Hen as [<-|[<-|[<-|[<-|[<-|[<-|[<-|[]]]]]]]];
    (eexists; split; [vm_compute; reflexivity|]);
    (split; [apply list_elem_of_In; simpl; tauto | discriminate]).
Qed.

Lemma dayNames_weekday t :
  ∃ sv, dayNames !! GoTime.Format_weekday t = Some sv ∧ sv ∈ swedishDays ∧ sv ≠ "".
Proof. apply dayNames_days, GoTimeFacts.Format_weekday_days. Qed.

Lemma dayNames_dayOfWeek w :
  (0 <= w < 7)%Z →
  dayNames !! Gregorian.englishName w = Some (Gregorian.swedishName w) ∧
  Gregorian.swedishName w ∈ swedishDays.
Proof.
  intros Hw. assert (w ∈ seqZ 0 7) as Hin by (apply elem_of_seqZ; lia).
  apply list_elem_of_In in Hin. simpl in Hin.
  destruct Hin as [<-|[<-|[<-|[<-|[<-|[<-|[<-|[]]]]]]]];
    (split; [vm_compute; reflexivity | apply list_elem_of_In; simpl; tauto]).
Qed.

(** C7. When the identifier of a day header, without its [match-day-]
    prefix, parses as an ISO date, it is the text [YYYY-MM-DD] of a date
    of the calendar, and the label of the day is that text followed by
    [" - "] and the Swedish name that [dayNames] gives for the English
    name of the day of the week of that date, the day of the week being
    the one the Gregorian calendar assigns to the date. The header of
    2024-01-01, a Monday, gets the label ["2024-01-01 - Måndag"], and
    the six days after it get the six other names in turn. *)
Theorem day_label_of_iso_date :
  (∀ s t, GoTime.Parse (dateOf s) = Some t →
     ∃ y m d,
       (0 <= y <= 9999)%Z ∧ (1 <= m <= 12)%Z ∧ (1 <= d <= GoTime.daysIn m y)%Z ∧
       dateOf s = GoTime.appendInt y 4 +:+ "-" +:+ GoTime.appendInt m 2 +:+ "-"
                    +:+ GoTime.appendInt d 2 ∧
       GoTime.Format_weekday t = Gregorian.englishName (Gregorian.dayOfWeek y m d) ∧
       dayNames !! Gregorian.englishName (Gregorian.dayOfWeek y m d)
       = Some (Gregorian.swedishName (Gregorian.dayOfWeek y m d)) ∧
       Gregorian.swedishName (Gregorian.dayOfWeek y m d) ∈ swedishDays ∧
       dayLabel s = dateOf s +:+ " - " +:+ Gregorian.swedishName (Gregorian.dayOfWeek y m d)) ∧
  (∀ rows, GoTime.Parse (dateOf (newYear2024 rows)) = Some (GoTime.Date 2024 1 1) ∧
           GoTime.Format_weekday (GoTime.Date 2024 1 1) = "Monday" ∧
           dayLabel (newYear2024 rows) = "2024-01-01 - Måndag") ∧
  (∀ rows,
     dayLabel {| innerId := Some "match-day-2024-01-02"; tableRows := rows |}
     = "2024-01-02 - Tisdag" ∧
     dayLabel {| innerId := Some "match-day-2024-01-03"; tableRows := rows |}
     = "2024-01-03 - Onsdag" ∧
     dayLabel {| innerId := Some "match-day-2024-01-04"; tableRows := rows |}
     = "2024-01-04 - Torsdag" ∧
     dayLabel {| innerId := Some "match-day-2024-01-05"; tableRows := rows |}
     = "2024-01-05 - Fredag" ∧
     dayLabel {| innerId := Some "match-day-2024-01-06"; tableRows := rows |}
     = "2024-01-06 - Lördag" ∧
     dayLabel {| innerId := Some "match-day-2024-01-07"; tableRows := rows |}
     = "2024-01-07 - Söndag").
Proof.
  split_and!.
  - intros s t Ht.
    destruct (GoTimeFacts.Parse_inv _ _ Ht)
      as (y & m & d & ys & ms & ds & Ev & <- & <- & <- & Hy & Hm & Hd & ->).
    exists y, m, d.
    assert (0 <= Gregorian.dayOfWeek y m d < 7)%Z as Hw by (apply Z.mod_pos_bound; lia).
    destruct (dayNames_dayOfWeek _ Hw) as [Hsv Hin].
    pose proof (WeekdayFacts.Format_weekday_Date y m d Hy Hm Hd) as Hen.
    split_and!; try done; try lia.
    rewrite dayLabel_eq, Ht. cbv zeta. cbn [from_option]. unfold id.
    rewrite Hen, Hsv. cbn [from_option]. unfold id.
    by rewrite (GoTimeFacts.Format_date_Parse _ _ Ht), append_assoc.
  - intros rows. split_and!; reflexivity.
  - intros rows. split_and!; reflexivity.
Qed.

Lemma day_label_of_iso_date_witness :
  GoTime.Parse (dateOf (newYear2024 [])) = Some (GoTime.Date 2024 1 1) ∧
  ∃ y m d,
    (0 <= y <= 9999)%Z ∧ (1 <= m <= 12)%Z ∧ (1 <= d <= GoTime.daysIn m y)%Z ∧
    dateOf (newYear2024 [])
    = GoTime.appendInt y 4 +:+ "-" +:+ GoTime.appendInt m 2 +:+ "-"
        +:+ GoTime.appendInt d 2 ∧
    GoTime.Format_weekday (GoTime.Date 2024 1 1)
    = Gregorian.englishName (Gregorian.dayOfWeek y m d) ∧
    dayNames !! Gregorian.englishName (Gregorian.dayOfWeek y m d)
    = Some (Gregorian.swedishName (Gregorian.dayOfWeek y m d)) ∧
    Gregorian.swedishName (Gregorian.dayOfWeek y m d) ∈ swedishDays ∧
    dayLabel (newYear2024 [])
    = dateOf (newYear2024 []) +:+ " - "
        +:+ Gregorian.swedishName (Gregorian.dayOfWeek y m d).
Proof.
  split; [reflexivity|].
  apply (proj1 day_label_of_iso_date (newYear2024 []) (GoTime.Date 2024 1 1)).
  reflexivity.
Defined.

Lemma eachDay_app days1 days2 : ∀ i schedule,
  eachDay i schedule (days1 ++ days2)
  = eachDay (i + length days1) (eachDay i schedule days1) days2.
Proof.
  induction days1 as [|s days1 IH]; intros i schedule; simpl.
  - by rewrite Nat.add_0_r.
  - by rewrite IH, Nat.add_succ_r.
Qed.

(** C8. When the identifier of a day header does not parse as a date,
    the date part of its label is the zero time formatted,
    ["0001-01-01 - "], and the walk goes on: the refresh ends without
    panic or error response, the rows of that header are filed under
    the zero-time label, and the headers after it are processed from
    the schedule so obtained. *)
Theorem malformed_date_absorbed (pre post : list DayHeader) (s : DayHeader)
    (now : GoTime.Time) (st : State) :
  GoTime.Parse (dateOf s) = None →
  GoTime.Format_date GoTime.zeroTime = "0001-01-01 - " ∧
  dayLabel s = GoTime.Format_date GoTime.zeroTime +:+ "Måndag" ∧
  panicked (refreshSchedule (Parsed (pre ++ s :: post)) now st) = false ∧
  events (refreshSchedule (Parsed (pre ++ s :: post)) now st) = [Fetch] ∧
  schedule (after (refreshSchedule (Parsed (pre ++ s :: post)) now st))
  = eachDay (S (length pre)) (processDay (length pre) (parseSchedule pre) s) post ∧
  ((length pre < daysToShow)%nat →
   processDay (length pre) (parseSchedule pre) s !! dayLabel s
   = Some (omap extractRow (tableRows s))).
Proof.
  intros Hbad. split_and!; try reflexivity.
  - by rewrite dayLabel_eq, Hbad.
  - cbn [refreshSchedule refreshBody after schedule]. unfold parseSchedule.
    by rewrite eachDay_app.
  - apply processDay_lookup.
Qed.

Lemma malformed_date_absorbed_witness :
  GoTime.Parse (dateOf unreadableDay) = None ∧
  GoTime.Format_date GoTime.zeroTime = "0001-01-01 - " ∧
  dayLabel unreadableDay = GoTime.Format_date GoTime.zeroTime +:+ "Måndag" ∧
  panicked (refreshSchedule (Parsed ([newYear2024 []] ++ unreadableDay :: [newYear2024 []]))
              GoTime.zeroTime (mkState ∅ GoTime.zeroTime)) = false.
Proof.
  split; [reflexivity|].
  pose proof (malformed_date_absorbed [newYear2024 []] [newYear2024 []] unreadableDay
                GoTime.zeroTime (mkState ∅ GoTime.zeroTime) eq_refl) as H.
  split; [apply H|]. split; apply H.
Defined.

(** C10. For every day header, whether its identifier parses as a date
    or not (the time is then the zero time), the weekday name that is
    looked up in [dayNames] is one of the seven English names of
    [time]'s table, the lookup succeeds, and the suffix of the label is
    one of the seven Swedish names, never the empty string: the
    empty-suffix fallback of the lookup is not reachable. *)
Theorem weekday_suffix_never_empty (s : DayHeader) :
  ∃ t sv,
    t = default GoTime.zeroTime (GoTime.Parse (dateOf s)) ∧
    GoTime.Format_weekday t ∈ GoTime.days ∧
    dayNames !! GoTime.Format_weekday t = Some sv ∧
    sv ∈ swedishDays ∧ sv ≠ "" ∧
    dayLabel s = GoTime.Format_date t +:+ sv.
Proof.
  set (t := default GoTime.zeroTime (GoTime.Parse (dateOf s))).
  destruct (dayNames_weekday t) as (sv & Hsv & Hin & Hne).
  exists t, sv. split_and!; try done.
  - apply GoTimeFacts.Format_weekday_days.
  - rewrite dayLabel_eq. cbv zeta. fold t. by rewrite Hsv.
Qed.

(** *** The cache *)

Lemma refreshSchedule_fetches up now st : Fetch ∈ events (refreshSchedule up now st).
Proof. destruct up; apply list_elem_of_In; simpl; tauto. Qed.

(** C1, as the code has it. Every refresh, failed or not, ends by
    setting the last-refresh time to the current time; so after a
    refresh that ended at [now], a staleness-gated request whose clock
    is at most [cacheDuration] later fetches nothing and changes
    nothing, whether that refresh failed or not. *)
Theorem refresh_always_stamps (up : Upstream) (now : GoTime.Time) (st : State) :
  lastRefresh (after (refreshSchedule up now st)) = now ∧
  ∀ up' checked now',
    (GoTime.Sub checked now <= cacheDuration)%Z →
    refreshScheduleIfNeeded up' checked now' (after (refreshSchedule up now st))
    = unchanged (after (refreshSchedule up now st)).
Proof.
  assert (lastRefresh (after (refreshSchedule up now st)) = now) as Hnow.
  { by destruct up. }
  split; [done|]. intros up' checked now' Hle.
  unfold refreshScheduleIfNeeded. rewrite Hnow. cbv zeta.
  destruct (Z.gtb_spec (GoTime.Sub checked now) cacheDuration); [lia | done].
Qed.

Lemma refresh_always_stamps_witness :
  lastRefresh (after (refreshSchedule (GetFails "timeout") (morning 0)
                        (mkState oneDay GoTime.zeroTime))) = morning 0 ∧
  events (refreshScheduleIfNeeded (Parsed []) (morning 1) (morning 1)
            (after (refreshSchedule (GetFails "timeout") (morning 0)
                      (mkState oneDay GoTime.zeroTime)))) = [].
Proof.
  pose proof (refresh_always_stamps (GetFails "timeout") (morning 0)
                (mkState oneDay GoTime.zeroTime)) as [H1 H2].
  split; [exact H1|].
  rewrite (H2 (Parsed []) (morning 1) (morning 1)); [reflexivity|].
  vm_compute. discriminate.
Defined.

(** C1 as stated fails: a refresh whose fetch fails at midnight moves
    the last-refresh time from the zero time to midnight, and the
    request one hour later, finding the cache fresh, does not retry. *)
Lemma failed_refresh_moves_timestamp :
  let st := mkState oneDay GoTime.zeroTime in
  let r := refreshSchedule (GetFails "timeout") (morning 0) st in
  events r = [Fetch; HttpError "timeout"] ∧
  lastRefresh st = GoTime.zeroTime ∧
  lastRefresh (after r) = morning 0 ∧
  lastRefresh (after r) ≠ lastRefresh st ∧
  events (refreshScheduleIfNeeded (Parsed []) (morning 1) (morning 1) (after r)) = [].
Proof. cbv zeta. split_and!; try reflexivity. discriminate. Qed.

(** C2. A failed fetch leaves the snapshot as it was. A failed document
    parse does not: the body goes on after the error response, replaces
    the snapshot by an empty map and panics on the nil document. *)
Theorem parse_failure_replaces_snapshot (err : string) (now : GoTime.Time) (st : State) :
  refreshSchedule (GetFails err) now st
  = {| after := {| schedule := schedule st; lastRefresh := now |};
       events := [Fetch; HttpError err]; panicked := false |} ∧
  refreshSchedule (ParseFails err) now st
  = {| after := {| schedule := ∅; lastRefresh := now |};
       events := [Fetch; HttpError err]; panicked := true |}.
Proof. split; reflexivity. Qed.

Lemma parse_failure_loses_snapshot :
  let st := mkState oneDay (morning 0) in
  let r := refreshSchedule (ParseFails "unexpected EOF") (morning 11) st in
  schedule st !! "2024-01-01 - Måndag" ≠ None ∧
  schedule (after r) !! "2024-01-01 - Måndag" = None ∧
  panicked r = true.
Proof. cbv zeta. split_and!; [vm_compute; discriminate | reflexivity..]. Qed.

(** C3, as the code has it. [cacheDuration] is 10 hours. The
    staleness-gated operation runs a refresh, and so a fetch, exactly
    when the time since the last refresh is greater than
    [cacheDuration]; when it is less than or equal to [cacheDuration],
    it fetches nothing and leaves the snapshot and the timestamp as
    they are. *)
Theorem refresh_iff_older_than_ttl (up : Upstream) (checked now : GoTime.Time)
    (st : State) :
  cacheDuration = (10 * 3600 * 1000000000)%Z ∧
  ((cacheDuration < GoTime.Sub checked (lastRefresh st))%Z →
     refreshScheduleIfNeeded up checked now st = refreshSchedule up now st ∧
     Fetch ∈ events (refreshScheduleIfNeeded up checked now st)) ∧
  ((GoTime.Sub checked (lastRefresh st) <= cacheDuration)%Z →
     refreshScheduleIfNeeded up checked now st = unchanged st).
Proof.
  split; [reflexivity|]. unfold refreshScheduleIfNeeded. cbv zeta.
  destruct (Z.gtb_spec (GoTime.Sub checked (lastRefresh st)) cacheDuration).
  - split; [|lia]. intros _. split; [done | apply refreshSchedule_fetches].
  - split; [lia | done].
Qed.

(** Scenario D and the initial state: nine hours after a refresh nothing
    is fetched, eleven hours after it and from the zero time a fetch is
    made. *)
Lemma refresh_iff_older_than_ttl_witness :
  refreshScheduleIfNeeded (Parsed []) (morning 9) (morning 9) (mkState oneDay (morning 0))
  = unchanged (mkState oneDay (morning 0)) ∧
  Fetch ∈ events (refreshScheduleIfNeeded (Parsed []) (morning 11) (morning 11)
                    (mkState oneDay (morning 0))) ∧
  Fetch ∈ events (refreshScheduleIfNeeded (Parsed []) (morning 0) (morning 0)
                    (mkState ∅ GoTime.zeroTime)).
Proof.
  split_and!.
  - apply (refresh_iff_older_than_ttl (Parsed []) (morning 9) (morning 9)
             (mkState oneDay (morning 0))). vm_compute. discriminate.
  - apply (refresh_iff_older_than_ttl (Parsed []) (morning 11) (morning 11)
             (mkState oneDay (morning 0))). vm_compute. reflexivity.
  - apply (refresh_iff_older_than_ttl (Parsed []) (morning 0) (morning 0)
             (mkState ∅ GoTime.zeroTime)). vm_compute. reflexivity.
Defined.

(** C3 as stated fails at the boundary: exactly [cacheDuration] after
    the last refresh the cache counts as Stale in the claim, and the
    operation fetches nothing. *)
Lemma no_refresh_at_exact_ttl :
  let st := mkState oneDay (morning 0) in
  GoTime.Sub (morning 10) (lastRefresh st) = cacheDuration ∧
  (GoTime.Sub (morning 10) (lastRefresh st) >= cacheDuration)%Z ∧
  refreshScheduleIfNeeded (Parsed []) (morning 10) (morning 10) st = unchanged st.
Proof. cbv zeta. split_and!; [reflexivity | vm_compute; discriminate | reflexivity]. Qed.

End AppFacts.

Module ConcurrentFacts.
Import App Concurrent ConcurrentSpec.

Lemma owed_cons h hs : owed (h :: hs) = owes h + owed hs.
Proof. reflexivity. Qed.

Lemma owed_insert (hs : list Handler) : ∀ (i : nat) h h',
  hs !! i = Some h → owed (<[i := h']> hs) + owes h = owed hs + owes h'.
Proof.
  induction hs as [|x hs IH]; intros [|i] h h' Hl; try done.
  - injection Hl as ->. clear IH.
    change (<[0 := h']> (h :: hs)) with (h' :: hs). rewrite !owed_cons. lia.
  - specialize (IH i h h' Hl).
    change (<[S i := h']> (x :: hs)) with (x :: <[i := h']> hs).
    rewrite !owed_cons. lia.
Qed.

Lemma body_fetches_once up st :
  length (filter (λ e, e = Fetch) (refreshBody up st).1.2) = 1.
Proof. by destruct up. Qed.

Lemma insert_no_Arrived (hs : list Handler) (i : nat) (h : Handler) :
  Arrived ∉ hs → h ≠ Arrived → Arrived ∉ <[i := h]> hs.
Proof.
  intros Hno Hh Hin. apply list_elem_of_lookup in Hin as [j Hj].
  destruct (decide (i = j)) as [<-|Hne].
  - destruct (decide (i < length hs)%nat).
    + rewrite list_lookup_insert_eq in Hj by done. congruence.
    + rewrite list_insert_ge in Hj by lia. apply Hno. by eapply list_elem_of_lookup_2.
  - rewrite list_lookup_insert_ne in Hj by done. apply Hno.
    by eapply list_elem_of_lookup_2.
Qed.

(** Once every handler is past the test, a step keeps the sum of the
    fetches made and the fetches owed. *)
Lemma step_owed w w' :
  step w w' → Arrived ∉ handlers w →
  (Arrived ∉ handlers w') ∧
  fetches w' + owed (handlers w') = fetches w + owed (handlers w).
Proof.
  intros Hs Hno. destruct Hs as [w i checked Hi _|w i checked Hi _|w i Hi _|w i up Hi|w i p now Hi];
    cbn [handlers log]; unfold fetches; cbn [log].
  - destruct Hno. by eapply list_elem_of_lookup_2.
  - destruct Hno. by eapply list_elem_of_lookup_2.
  - split; [by apply insert_no_Arrived|].
    pose proof (owed_insert _ _ _ Holding Hi) as E. cbn [owes] in E. lia.
  - split; [by apply insert_no_Arrived|].
    rewrite filter_app, length_app, body_fetches_once.
    pose proof (owed_insert _ _ _ (Finishing (refreshBody up (shared w)).2) Hi) as E.
    cbn [owes] in E. lia.
  - split; [by apply insert_no_Arrived|].
    pose proof (owed_insert _ _ _ Served Hi) as E. cbn [owes] in E. lia.
Qed.

Lemma steps_owed w w' :
  rtc step w w' → Arrived ∉ handlers w →
  (Arrived ∉ handlers w') ∧
  fetches w' + owed (handlers w') = fetches w + owed (handlers w).
Proof.
  induction 1 as [w | w w1 w' Hs _ IH]; intros Hno; [done|].
  destruct (step_owed _ _ Hs Hno) as [Hno1 E1].
  destruct (IH Hno1) as [Hno' E']. split; [done | lia].
Qed.

Lemma owed_Waiting hs : Forall (λ h, h = Waiting) hs → owed hs = length hs.
Proof.
  induction 1 as [|h hs -> _ IH]; [done|]. rewrite owed_cons, IH. reflexivity.
Qed.

Lemma owed_Served hs : Forall (λ h, h = Served) hs → owed hs = 0%nat.
Proof.
  induction 1 as [|h hs -> _ IH]; [done|]. rewrite owed_cons, IH. reflexivity.
Qed.

(** C9, as the code has it. When N handlers have all found the cache
    stale, each of them fetches once it holds the lock, since staleness
    is not tested again under the lock: by the time all of them are
    served, N fetches have been made. *)
Theorem every_stale_observer_fetches (w w' : World) :
  Forall (λ h, h = Waiting) (handlers w) →
  rtc step w w' →
  Forall (λ h, h = Served) (handlers w') →
  fetches w' = fetches w + length (handlers w).
Proof.
  intros Hw Hrun Hs.
  destruct (steps_owed w w' Hrun) as [_ E].
  { intros Hin. eapply Forall_forall in Hw; [|done]. discriminate Hw. }
  rewrite (owed_Waiting _ Hw), (owed_Served _ Hs) in E. lia.
Qed.

Lemma both_observe_stale : rtc step twoArrived twoWaiting.
Proof.
  eapply rtc_l.
  { eapply (step_stale _ 0 (AppSpec.morning 0)); [reflexivity | vm_compute; reflexivity]. }
  eapply rtc_l.
  { eapply (step_stale _ 1 (AppSpec.morning 0)); [reflexivity | vm_compute; reflexivity]. }
  apply rtc_refl.
Qed.

Lemma both_refresh : rtc step twoWaiting twoServed.
Proof.
  eapply rtc_l. { by eapply (step_lock _ 0). }
  eapply rtc_l. { by eapply (step_body _ 0 (Parsed [])). }
  eapply rtc_l. { by eapply (step_unlock _ 0 false (AppSpec.morning 0)). }
  eapply rtc_l. { by eapply (step_lock _ 1). }
  eapply rtc_l. { by eapply (step_body _ 1 (Parsed [])). }
  eapply rtc_l. { by eapply (step_unlock _ 1 false (AppSpec.morning 0)). }
  apply rtc_refl.
Qed.

Lemma every_stale_observer_fetches_witness :
  Forall (λ h, h = Waiting) (handlers twoWaiting) ∧
  Forall (λ h, h = Served) (handlers twoServed) ∧
  fetches twoServed = (fetches twoWaiting + length (handlers twoWaiting))%nat.
Proof.
  assert (Forall (λ h, h = Waiting) (handlers twoWaiting)) as H1.
  { repeat constructor. }
  assert (Forall (λ h, h = Served) (handlers twoServed)) as H2.
  { repeat constructor. }
  split; [exact H1|]. split; [exact H2|].
  exact (every_stale_observer_fetches twoWaiting twoServed H1 both_refresh H2).
Defined.

(** C9 as stated fails: two handlers that arrive at the start both find
    the cache stale, and by the time both are served two fetches have
    been made, not at most one. *)
Lemma two_stale_observers_fetch_twice :
  rtc step twoArrived twoWaiting ∧
  Forall (λ h, h = Waiting) (handlers twoWaiting) ∧
  rtc step twoWaiting twoServed ∧
  fetches twoWaiting = 0%nat ∧
  fetches twoServed = 2%nat ∧
  ¬ (fetches twoServed ≤ fetches twoWaiting + 1).
Proof.
  split_and!; [apply both_observe_stale | repeat constructor | apply both_refresh
              | reflexivity | reflexivity | vm_compute; lia].
Qed.

End ConcurrentFacts.

(** ** More on the league text *)

Module TextExtra.
Import Text TextSpec TextFacts TextMore App.

Lemma app_cons c s t : String c s +:+ t = String c (s +:+ t).
Proof. reflexivity. Qed.

Lemma spaced_app_byte pre c post : ∀ b,
  spaced b (pre +:+ String c post) → isSpace c = true → c = " "%char.
Proof.
  induction pre as [|a pre IH]; intros b.
  - change ("" +:+ String c post) with (String c post). cbn [spaced].
    intros H Hc. rewrite Hc in H. tauto.
  - rewrite app_cons. cbn [spaced]. destruct (isSpace a); [intros (_ & _ & H)|intros H];
      by eapply IH.
Qed.

Lemma spaced_no_double pre post : ∀ b, ¬ spaced b (pre +:+ "  " +:+ post).
Proof.
  induction pre as [|a pre IH]; intros b.
  - change ("" +:+ "  " +:+ post) with (String " " (String " " post)).
    cbn [spaced]. change (isSpace " ") with true. cbv iota. intros (_ & _ & _ & H & _).
    discriminate H.
  - rewrite app_cons. cbn [spaced]. destruct (isSpace a); [intros (_ & _ & H)|intros H];
      by eapply IH.
Qed.

Lemma TrimRight_no_trailing t : TrimRight (t +:+ " ") ≠ t +:+ " ".
Proof.
  induction t as [|c t IH].
  - discriminate.
  - rewrite app_cons. cbn [TrimRight].
    destruct (TrimRight (t +:+ " ")) as [|a r] eqn:E.
    + case_decide; [discriminate|]. intros [= Ht]. by destruct t.
    + intros [= Ht]. by apply IH.
Qed.

(** X1. Whatever the input, the normalised league text has no [\s] byte
    other than the space (no newline, tab, form feed or carriage
    return), never two spaces in a row, and no space at its start or at
    its end. *)
Theorem normalize_shape (s : string) :
  (∀ pre c post, normalize s = pre +:+ String c post → isSpace c = true → c = " "%char) ∧
  (¬ substring "  " (normalize s)) ∧
  (∀ t, normalize s ≠ String " " t) ∧
  (∀ t, normalize s ≠ t +:+ " ").
Proof.
  pose proof (normalize_spaced s) as Hs.
  assert (TrimRight (normalize s) = normalize s) as Hr.
  { unfold normalize, Trim. apply TrimRight_idemp. }
  split_and!.
  - intros pre c post E. rewrite E in Hs. by eapply spaced_app_byte.
  - intros (pre & post & E). rewrite E in Hs. by eapply spaced_no_double.
  - intros t E. rewrite E in Hs. cbn in Hs. destruct Hs as (_ & Hb & _). discriminate Hb.
  - intros t E. rewrite E in Hr. by eapply TrimRight_no_trailing.
Qed.

Lemma nonSpaces_newline s : nonSpaces (Replace s newline " ") = nonSpaces s.
Proof.
  unfold Replace, newline. induction s as [|c s IH]; [done|].
  cbn [replaceFrom HasPrefix]. case_decide as Hc.
  - subst c. change (String.length _ - 1)%nat with 0%nat.
    change (" " +:+ ?x) with (String " " x). cbn [nonSpaces].
    change (isSpace " ") with true. change (isSpace (ascii_of_nat 10)) with true.
    cbv iota. apply IH.
  - cbn [nonSpaces]. by rewrite IH.
Qed.

Lemma nonSpaces_collapseRuns s : ∀ b, nonSpaces (collapseRuns b s) = nonSpaces s.
Proof.
  induction s as [|c s IH]; intros b; [done|]. cbn [collapseRuns nonSpaces].
  destruct (isSpace c) eqn:Hc.
  - destruct b; [apply IH|]. cbn [nonSpaces]. change (isSpace " ") with true.
    cbv iota. apply IH.
  - cbn [nonSpaces]. by rewrite Hc, IH.
Qed.

Lemma nonSpaces_TrimLeft s : nonSpaces (TrimLeft s) = nonSpaces s.
Proof.
  induction s as [|c s IH]; [done|]. cbn [TrimLeft]. case_decide as Hc; [|done].
  subst c. cbn [nonSpaces]. change (isSpace " ") with true. cbv iota. apply IH.
Qed.

Lemma nonSpaces_TrimRight s : nonSpaces (TrimRight s) = nonSpaces s.
Proof.
  induction s as [|c s IH]; [done|]. cbn [TrimRight nonSpaces]. rewrite <- IH.
  destruct (TrimRight s) as [|a r].
  - case_decide as Hc; [|done]. subst c. by change (isSpace " ") with true.
  - done.
Qed.

(** X2. Normalising only touches whitespace: the bytes outside [\s] of
    the result are those of the input, in the same order; and the result
    is empty exactly when the input has no byte outside [\s]. *)
Theorem normalize_keeps_text (s : string) :
  nonSpaces (normalize s) = nonSpaces s ∧
  (normalize s = EmptyString ↔ nonSpaces s = EmptyString).
Proof.
  assert (nonSpaces (normalize s) = nonSpaces s) as E.
  { unfold normalize, Trim, multipleSpaces_ReplaceAllString.
    by rewrite nonSpaces_TrimRight, nonSpaces_TrimLeft, nonSpaces_collapseRuns,
      nonSpaces_newline. }
  split; [done|]. rewrite <- E. split; [by intros ->|].
  pose proof (normalize_spaced s) as Hs.
  destruct (normalize s) as [|c t]; [done|]. cbn [spaced nonSpaces] in *.
  destruct (isSpace c); [|done]. destruct Hs as (_ & H & _). discriminate H.
Qed.

Lemma replaceFrom_absent old new s :
  Contains s old = false → replaceFrom 0 s old new = s.
Proof.
  induction s as [|c s IH]; [done|]. cbn [Contains replaceFrom].
  intros [H1 H2]%orb_false_iff. rewrite H1. by rewrite IH.
Qed.

Lemma insertAfterRunes_empty s : ∀ left, insertAfterRunes left s "" = s.
Proof.
  induction s as [|c s IH]; intros left; [done|]. cbn [insertAfterRunes].
  destruct (match left with O => runeWidth c s | S _ => left end) as [|[|k]];
    by rewrite IH.
Qed.

Lemma Replace_absent s old new :
  old ≠ EmptyString → Contains s old = false → Replace s old new = s.
Proof. destruct old; [done|]. intros _. apply replaceFrom_absent. Qed.

Lemma Replace_empty_empty s : Replace s "" "" = s.
Proof. unfold Replace. apply (insertAfterRunes_empty s 0). Qed.

(** X3. Link texts that are empty or do not occur in the league text
    leave it as it is: [stripLinks] then changes nothing. *)
Theorem stripLinks_absent (league : string) (links : list string) :
  Forall (λ a, a = EmptyString ∨ Contains league a = false) links →
  stripLinks league links = league.
Proof.
  unfold stripLinks. induction 1 as [|a links Ha _ IH]; [done|].
  cbn [foldl]. destruct Ha as [-> | Ha].
  - by rewrite Replace_empty_empty.
  - rewrite Replace_absent; [done| |done]. intros ->. by destruct league.
Qed.

Lemma stripLinks_absent_witness :
  stripLinks "Premier League" [""; "Round 5"; "Omgång 3"] = "Premier League".
Proof.
  apply (stripLinks_absent "Premier League" [""; "Round 5"; "Omgång 3"]).
  repeat constructor; (by left) || (right; reflexivity).
Defined.

End TextExtra.

(** ** More on the parsed schedule *)

Module ParserExtra.
Import Text TextSpec TextFacts App AppSpec AppFacts ParserMore.

Lemma lastWith_Some label days s :
  lastWith label days = Some s → s ∈ days ∧ dayLabel s = label.
Proof.
  induction days as [|s' days IH]; [done|]. cbn [lastWith].
  destruct (lastWith label days) as [s''|].
  - intros [= ->]. destruct IH as [? ?]; [done|]. split; [by right | done].
  - case_decide; [|done]. intros [= ->]. split; [left | done].
Qed.

Lemma eachDay_lookup label days : ∀ i schedule,
  (i + length days ≤ daysToShow)%nat →
  eachDay i schedule days !! label
  = match lastWith label days with
    | Some s => Some (dayMatches s)
    | None => schedule !! label
    end.
Proof.
  induction days as [|s days IH]; intros i schedule Hi; [done|].
  cbn [eachDay lastWith length] in *. rewrite IH by lia.
  destruct (lastWith label days) as [s'|]; [done|].
  case_decide as Hl.
  - subst label. apply processDay_lookup. lia.
  - by apply processDay_lookup_ne.
Qed.

Lemma parseSchedule_lookup doc label :
  parseSchedule doc !! label
  = dayMatches <$> lastWith label (take daysToShow doc).
Proof.
  unfold parseSchedule. rewrite eachDay_take, eachDay_lookup.
  - rewrite Nat.sub_0_r. destruct (lastWith _ _); [done | apply lookup_empty].
  - rewrite length_take. lia.
Qed.

(** X4. The value of each key of the parsed schedule is given by the
    last of the first 10 day headers that has this label: the rows of
    that header that pass the league filter, in row order. Earlier
    headers with the same label leave nothing, and a header none of
    whose rows passes still has its key, bound to the empty list. *)
Theorem schedule_lookup (doc : Document) (label : string) :
  parseSchedule doc !! label
  = dayMatches <$> lastWith label (take daysToShow doc).
Proof. apply parseSchedule_lookup. Qed.

Lemma rowLeague_fixed ms : normalize (rowLeague ms) = rowLeague ms.
Proof.
  unfold rowLeague. apply normalize_fixed; [apply normalize_spaced|].
  unfold normalize, Trim. apply TrimRight_idemp.
Qed.

(** X5. Every record of the parsed schedule comes from a football row
    of one of the first 10 day headers, under the label of that header;
    its league text is in normal form and contains one of the configured
    league names. *)
Theorem schedule_records (doc : Document) (date : string) (ms : list match_)
    (m : match_) :
  parseSchedule doc !! date = Some ms → m ∈ ms →
  ∃ s row, s ∈ take daysToShow doc ∧ dayLabel s = date ∧
           row ∈ tableRows s ∧ extractRow row = Some m ∧
           normalize (League m) = League m ∧
           ∃ l, l ∈ leagues ∧ substring l (League m).
Proof.
  rewrite parseSchedule_lookup. intros Hl Hm.
  destruct (lastWith date (take daysToShow doc)) as [s|] eqn:Hs; [|done].
  injection Hl as <-. apply lastWith_Some in Hs as [Hin Hd].
  apply list_elem_of_omap in Hm as (row & Hrow & Hm).
  exists s, row. destruct (extractRow_Some _ _ Hm) as [HL Hsub].
  split_and!; try done. rewrite HL. apply rowLeague_fixed.
Qed.

Lemma schedule_records_witness :
  ∃ s row, s ∈ take daysToShow [newYear2024 [ligueRow; premierRow]] ∧
           dayLabel s = "2024-01-01 - Måndag" ∧
           row ∈ tableRows s ∧
           extractRow row = extractRow premierRow.
Proof.
  destruct (schedule_records [newYear2024 [ligueRow; premierRow]]
              "2024-01-01 - Måndag"
              (omap extractRow [ligueRow; premierRow])
              (mkMatch "Arsenal - Chelsea" "Premier League" "Viaplay" "18:30"))
    as (s & row & H1 & H2 & H3 & H4 & _).
  - vm_compute. reflexivity.
  - apply list_elem_of_In. simpl. tauto.
  - exists s, row. split_and!; [done..|]. by rewrite H4.
Defined.

Lemma Parse_length value t : GoTime.Parse value = Some t → String.length value = 10%nat.
Proof.
  unfold GoTime.Parse. intros H.
  destruct (GoTime.getyear value) as [[year v1]|] eqn:Hy; [|done]. simpl in H.
  destruct (GoTime.skipDash v1) as [v2|] eqn:H1; [|done]. simpl in H.
  destruct (GoTime.getnum v2) as [[month v3]|] eqn:Hm; [|done]. simpl in H.
  destruct (guard (1 <= month <= 12)%Z) as [Gm|] eqn:EGm; [|done]. simpl in H.
  destruct (GoTime.skipDash v3) as [v4|] eqn:H2; [|done]. simpl in H.
  destruct (GoTime.getnum v4) as [[day v5]|] eqn:Hd; [|done]. simpl in H.
  destruct (guard (v5 = EmptyString)) as [Ge|] eqn:EGe; [|done]. subst v5.
  apply GoTimeFacts.getyear_inv in Hy as (a & b & c & d & _ & _ & _ & _ & -> & _).
  apply GoTimeFacts.skipDash_inv in H1 as ->. apply GoTimeFacts.skipDash_inv in H2 as ->.
  apply GoTimeFacts.getnum_inv in Hm as (m1 & m2 & _ & _ & -> & _).
  apply GoTimeFacts.getnum_inv in Hd as (d1 & d2 & _ & _ & -> & _).
  reflexivity.
Qed.

Lemma app_inj_length a : ∀ b x y,
  String.length a = String.length b → a +:+ x = b +:+ y → a = b.
Proof.
  induction a as [|c a IH]; intros [|c' b] x y Hlen E; try done.
  injection Hlen as Hlen. injection E as -> E. f_equal. by eapply IH.
Qed.

Lemma dayLabel_parsed s t :
  GoTime.Parse (dateOf s) = Some t →
  dayLabel s = dateOf s +:+ " - " +:+ default "" (dayNames !! GoTime.Format_weekday t).
Proof.
  intros Ht. rewrite dayLabel_eq, Ht. cbv zeta. cbn [from_option]. unfold id.
  by rewrite (GoTimeFacts.Format_date_Parse _ _ Ht), append_assoc.
Qed.

Lemma dayLabel_unparsed s :
  GoTime.Parse (dateOf s) = None → dayLabel s = "0001-01-01 - Måndag".
Proof. intros Ht. by rewrite dayLabel_eq, Ht. Qed.

Lemma dayLabel_inj s1 s2 :
  is_Some (GoTime.Parse (dateOf s1)) → is_Some (GoTime.Parse (dateOf s2)) →
  dayLabel s1 = dayLabel s2 → dateOf s1 = dateOf s2.
Proof.
  intros [t1 H1] [t2 H2]. rewrite (dayLabel_parsed _ _ H1), (dayLabel_parsed _ _ H2).
  apply app_inj_length. by rewrite (Parse_length _ _ H1), (Parse_length _ _ H2).
Qed.

Lemma NoDup_fmap_inj_on {A B} (f : A → B) (l : list A) x y :
  NoDup (f <$> l) → x ∈ l → y ∈ l → f x = f y → x = y.
Proof.
  induction l as [|a l IH]; [by intros _ ?%elem_of_nil|].
  rewrite fmap_cons, NoDup_cons, !elem_of_cons. intros [Ha Hl] [->|Hx] [->|Hy] E; try done.
  - destruct Ha. rewrite E. by apply list_elem_of_fmap_2.
  - destruct Ha. rewrite <- E. by apply list_elem_of_fmap_2.
  - by apply IH.
Qed.

(** X6. When the day headers of the document carry dates that all parse
    and are pairwise different, no day is lost: distinct dates get
    distinct labels, and the schedule has one entry for each of the
    first 10 headers. *)
Theorem no_day_lost (doc : Document) :
  Forall (λ s, is_Some (GoTime.Parse (dateOf s))) doc →
  NoDup (dateOf <$> doc) →
  NoDup (dayLabel <$> take daysToShow doc) ∧
  size (parseSchedule doc) = min daysToShow (length doc).
Proof.
  intros Hp Hnd.
  assert (NoDup (dayLabel <$> take daysToShow doc)) as Hlab.
  { apply NoDup_fmap_2_strong.
    - intros x y Hx Hy E.
      apply (subseteq_take daysToShow doc) in Hx, Hy.
      apply (NoDup_fmap_inj_on dateOf doc); [done..|].
      rewrite Forall_forall in Hp. apply dayLabel_inj; auto.
    - eapply sublist_NoDup; [by eapply (NoDup_fmap_1 dateOf) | apply sublist_take]. }
  split; [done|].
  rewrite <- (size_dom (D := gset string)).
  unfold parseSchedule. rewrite eachDay_dom, dom_empty_L, (left_id_L ∅ (∪)), Nat.sub_0_r.
  by rewrite size_list_to_set, length_fmap, length_take.
Qed.

Lemma no_day_lost_witness :
  size (parseSchedule [dayOf 2024 2 29 [premierRow]; dayOf 2024 3 1 [ligueRow]]) = 2%nat.
Proof.
  apply (no_day_lost [dayOf 2024 2 29 [premierRow]; dayOf 2024 3 1 [ligueRow]]).
  - repeat constructor; vm_compute; eauto.
  - vm_compute. repeat constructor; rewrite ?list_elem_of_In; simpl; intuition discriminate.
Defined.

Lemma lastWith_all label days :
  Forall (λ s, dayLabel s = label) days → lastWith label days = last days.
Proof.
  induction 1 as [|s days Hs _ IH]; [done|]. cbn [lastWith]. rewrite IH, last_cons.
  destruct (last days); [done | by rewrite decide_True].
Qed.

Lemma lastWith_none label days :
  Forall (λ s, dayLabel s ≠ label) days → lastWith label days = None.
Proof.
  induction 1 as [|s days Hs _ IH]; [done|]. cbn [lastWith]. rewrite IH.
  by rewrite decide_False.
Qed.

(** X7. When no day header of the document carries a date that parses,
    all of them share the label of the zero time: the schedule has this
    one key, bound to the records of the last of the first 10 headers,
    and the rows of the headers before it are lost. *)
Theorem unreadable_days_collapse (doc : Document) (s : DayHeader) :
  Forall (λ s, GoTime.Parse (dateOf s) = None) doc →
  last (take daysToShow doc) = Some s →
  parseSchedule doc = {[ "0001-01-01 - Måndag" := dayMatches s ]}.
Proof.
  intros Hbad Hlast. apply map_eq. intros label. rewrite parseSchedule_lookup.
  apply (Forall_take _ daysToShow) in Hbad.
  destruct (decide (label = "0001-01-01 - Måndag")) as [->|Hne].
  - rewrite lookup_singleton_eq, lastWith_all, Hlast; [done|].
    eapply Forall_impl; [done|]. intros x. apply dayLabel_unparsed.
  - rewrite lookup_singleton_ne by done. rewrite lastWith_none; [done|].
    eapply Forall_impl; [done|]. intros x Hx. by rewrite (dayLabel_unparsed _ Hx).
Qed.

Lemma unreadable_days_collapse_witness :
  parseSchedule [unreadableDay; {| innerId := None; tableRows := [ligueRow] |}]
  = {[ "0001-01-01 - Måndag" := [] ]}.
Proof.
  apply (unreadable_days_collapse
           [unreadableDay; {| innerId := None; tableRows := [ligueRow] |}]
           {| innerId := None; tableRows := [ligueRow] |}).
  - repeat constructor.
  - reflexivity.
Defined.

Lemma digit_digitChar x :
  (0 <= x <= 9)%Z → GoTime.digit (Calendar.digitChar x) = Some x.
Proof.
  intros Hx.
  assert (x ∈ seqZ 0 10) as Hin by (apply elem_of_seqZ; lia).
  apply list_elem_of_In in Hin. simpl in Hin.
  destruct Hin as [<-|[<-|[<-|[<-|[<-|[<-|[<-|[<-|[<-|[<-|[]]]]]]]]]]]; reflexivity.
Qed.

Lemma digitChar_not_m x : (0 <= x <= 9)%Z → Calendar.digitChar x ≠ "m"%char.
Proof.
  intros Hx E. pose proof (digit_digitChar x Hx) as H. rewrite E in H. discriminate H.
Qed.

Lemma noByte_Contains c old s : noByte c s → Contains s (String c old) = false.
Proof.
  induction s as [|a s IH]; [done|]. cbn [noByte Contains HasPrefix].
  intros [Ha Hs]. rewrite decide_False by done. by rewrite IH.
Qed.

Lemma Parse_digits a b c e m1 m2 d1 d2 ya yb yc ye ma mb da db :
  GoTime.digit a = Some ya → GoTime.digit b = Some yb →
  GoTime.digit c = Some yc → GoTime.digit e = Some ye →
  GoTime.digit m1 = Some ma → GoTime.digit m2 = Some mb →
  GoTime.digit d1 = Some da → GoTime.digit d2 = Some db →
  (1 <= ma * 10 + mb <= 12)%Z →
  (1 <= da * 10 + db
   <= GoTime.daysIn (ma * 10 + mb) (((ya * 10 + yb) * 10 + yc) * 10 + ye))%Z →
  GoTime.Parse
    (String a (String b (String c (String e (String "-"
       (String m1 (String m2 (String "-" (String d1 (String d2 EmptyString))))))))))
  = Some (GoTime.Date (((ya * 10 + yb) * 10 + yc) * 10 + ye) (ma * 10 + mb) (da * 10 + db)).
Proof.
  intros Ha Hb Hc He Hm1 Hm2 Hd1 Hd2 Hm Hd.
  unfold GoTime.Parse, GoTime.getyear, GoTime.getnum, GoTime.skipDash.
  rewrite Ha, Hb, Hc, He. cbn [mbind option_bind]. rewrite decide_True by done.
  cbn [mbind option_bind]. rewrite Hm1, Hm2. cbn [mbind option_bind].
  rewrite option_guard_True by done. cbn [mbind option_bind].
  rewrite decide_True by done. cbn [mbind option_bind]. rewrite Hd1, Hd2.
  cbn [mbind option_bind]. rewrite option_guard_True by done. cbn [mbind option_bind].
  by rewrite option_guard_True by done.
Qed.

(** X8. Every date of the calendar from year 0000 to 9999 is read back:
    the identifier [match-day-YYYY-MM-DD] of such a date (month 1..12,
    day within the month, leap years counted) parses to that date, and
    the label of its header is the date text followed by [" - "] and a
    Swedish weekday name. *)
Theorem valid_date_parses (y m d : Z) (rows : list Row) :
  (0 <= y <= 9999)%Z → (1 <= m <= 12)%Z → (1 <= d <= GoTime.daysIn m y)%Z →
  dateOf (dayOf y m d rows) = isoDate y m d ∧
  GoTime.Parse (isoDate y m d) = Some (GoTime.Date y m d) ∧
  ∃ sv, sv ∈ swedishDays ∧ dayLabel (dayOf y m d rows) = isoDate y m d +:+ " - " +:+ sv.
Proof.
  intros Hy Hm Hd.
  set (ya := (y / 1000)%Z). set (yb := (y / 100 mod 10)%Z).
  set (yc := (y / 10 mod 10)%Z). set (ye := (y mod 10)%Z).
  set (ma := (m / 10)%Z). set (mb := (m mod 10)%Z).
  set (da := (d / 10)%Z). set (db := (d mod 10)%Z).
  assert (d <= 31)%Z as Hd31.
  { destruct Hd as [_ Hd]. etrans; [exact Hd|]. unfold GoTime.daysIn.
    assert (m ∈ seqZ 1 12) as Hin by (apply elem_of_seqZ; lia).
    apply list_elem_of_In in Hin. simpl in Hin.
    destruct Hin as [<-|[<-|[<-|[<-|[<-|[<-|[<-|[<-|[<-|[<-|[<-|[<-|[]]]]]]]]]]]]];
      destruct (GoTime.isLeap y); vm_compute; discriminate. }
  assert ((0 <= ya <= 9 ∧ 0 <= yb <= 9 ∧ 0 <= yc <= 9 ∧ 0 <= ye <= 9 ∧
           0 <= ma <= 9 ∧ 0 <= mb <= 9 ∧ 0 <= da <= 9 ∧ 0 <= db <= 9)%Z ∧
          (y = ((ya * 10 + yb) * 10 + yc) * 10 + ye ∧ m = ma * 10 + mb ∧
           d = da * 10 + db)%Z) as [(Ha & Hb & Hc & He & Hma & Hmb & Hda & Hdb) (Ey & Em & Ed)].
  { subst ya yb yc ye ma mb da db. split; Z.div_mod_to_equations; lia. }
  clearbody ya yb yc ye ma mb da db. subst y m d.
  assert (isoDate (((ya * 10 + yb) * 10 + yc) * 10 + ye) (ma * 10 + mb) (da * 10 + db)
          = String (Calendar.digitChar ya) (String (Calendar.digitChar yb)
              (String (Calendar.digitChar yc) (String (Calendar.digitChar ye) (String "-"
                (String (Calendar.digitChar ma) (String (Calendar.digitChar mb) (String "-"
                  (String (Calendar.digitChar da) (String (Calendar.digitChar db)
                     EmptyString)))))))))) as Eiso.
  { unfold isoDate.
    rewrite (GoTimeFacts.appendInt_four (Calendar.digitChar ya) (Calendar.digitChar yb)
               (Calendar.digitChar yc) (Calendar.digitChar ye)) by by apply digit_digitChar.
    rewrite (GoTimeFacts.appendInt_two (Calendar.digitChar ma) (Calendar.digitChar mb))
      by by apply digit_digitChar.
    by rewrite (GoTimeFacts.appendInt_two (Calendar.digitChar da) (Calendar.digitChar db))
      by by apply digit_digitChar. }
  assert (GoTime.Parse (isoDate (((ya * 10 + yb) * 10 + yc) * 10 + ye) (ma * 10 + mb)
                          (da * 10 + db))
          = Some (GoTime.Date (((ya * 10 + yb) * 10 + yc) * 10 + ye) (ma * 10 + mb)
                    (da * 10 + db))) as HP.
  { rewrite Eiso. apply Parse_digits; try done; by apply digit_digitChar. }
  assert (dateOf (dayOf (((ya * 10 + yb) * 10 + yc) * 10 + ye) (ma * 10 + mb)
                    (da * 10 + db) rows)
          = isoDate (((ya * 10 + yb) * 10 + yc) * 10 + ye) (ma * 10 + mb) (da * 10 + db))
    as HD.
  { unfold dateOf, dayOf. cbn [innerId from_option]. unfold id.
    change (Replace ("match-day-" +:+ ?s) "match-day-" "")
      with (replaceFrom 0 s "match-day-" "").
    apply TextExtra.replaceFrom_absent, noByte_Contains. rewrite Eiso. cbn [noByte].
    split_and!; try done; by apply digitChar_not_m. }
  split_and!; [done..|].
  destruct (dayNames_weekday (GoTime.Date (((ya * 10 + yb) * 10 + yc) * 10 + ye)
              (ma * 10 + mb) (da * 10 + db))) as (sv & Hsv & Hin & _).
  exists sv. split; [done|].
  rewrite (dayLabel_parsed _ (GoTime.Date (((ya * 10 + yb) * 10 + yc) * 10 + ye)
             (ma * 10 + mb) (da * 10 + db))), HD, Hsv by by rewrite HD.
  done.
Qed.

Lemma valid_date_parses_witness :
  GoTime.Parse (isoDate 2024 2 29) = Some (GoTime.Date 2024 2 29) ∧
  ∃ sv, sv ∈ swedishDays ∧
        dayLabel (dayOf 2024 2 29 []) = isoDate 2024 2 29 +:+ " - " +:+ sv.
Proof.
  destruct (valid_date_parses 2024 2 29 []) as (_ & H1 & H2);
    [lia | lia | vm_compute; split; discriminate | by split].
Defined.

End ParserExtra.

(** ** More on the cache and on the handlers *)

Module CacheExtra.
Import App AppSpec AppFacts.

(** The difference of two times in nanoseconds, without bound. *)
Lemma Sub_decides t u :
  (cacheDuration < GoTime.Sub t u
   ↔ cacheDuration
     < (GoTime.sec t - GoTime.sec u) * GoTime.Second + (GoTime.nsec t - GoTime.nsec u))%Z.
Proof.
  unfold GoTime.Sub. cbv zeta.
  set (d := ((GoTime.sec t - GoTime.sec u) * GoTime.Second
             + (GoTime.nsec t - GoTime.nsec u))%Z).
  assert (GoTime.minDuration < 0 ∧ cacheDuration < GoTime.maxDuration ∧ 0 < cacheDuration)%Z
    as (H1 & H2 & H3) by (vm_compute; auto).
  destruct ((GoTime.minDuration <=? d)%Z && (d <=? GoTime.maxDuration)%Z) eqn:E; [done|].
  apply andb_false_iff in E. destruct (Z.ltb_spec d 0); [lia|].
  destruct E as [E%Z.leb_gt | E%Z.leb_gt]; lia.
Qed.

(** X9. Saturation of the elapsed time never changes the decision: the
    staleness-gated operation refreshes exactly when the true difference
    between the clock and the last refresh, in nanoseconds, exceeds 10
    hours, whether or not that difference fits a [Duration]. From the
    zero time of a new process, any clock later than 10:00 of January 1,
    year 1 therefore refreshes. *)
Theorem staleness_is_exact (up : Upstream) (checked now : GoTime.Time) (st : State) :
  refreshScheduleIfNeeded up checked now st
  = (if decide (36000 * 1000000000
                < (GoTime.sec checked - GoTime.sec (lastRefresh st)) * 1000000000
                  + (GoTime.nsec checked - GoTime.nsec (lastRefresh st)))%Z
     then refreshSchedule up now st else unchanged st) ∧
  (lastRefresh st = GoTime.zeroTime →
   (36000 < GoTime.sec checked)%Z → (0 <= GoTime.nsec checked)%Z →
   refreshScheduleIfNeeded up checked now st = refreshSchedule up now st).
Proof.
  assert (refreshScheduleIfNeeded up checked now st
          = if decide (36000 * 1000000000
                < (GoTime.sec checked - GoTime.sec (lastRefresh st)) * 1000000000
                  + (GoTime.nsec checked - GoTime.nsec (lastRefresh st)))%Z
            then refreshSchedule up now st else unchanged st) as E.
  { unfold refreshScheduleIfNeeded. cbv zeta.
    pose proof (Sub_decides checked (lastRefresh st)) as H.
    change cacheDuration with (36000 * 1000000000)%Z in H at 2.
    change GoTime.Second with 1000000000%Z in H.
    destruct (Z.gtb_spec (GoTime.Sub checked (lastRefresh st)) cacheDuration);
      case_decide; try done; lia. }
  split; [done|]. intros Hz Hs Hn. rewrite E, Hz. cbn [GoTime.sec GoTime.nsec GoTime.zeroTime].
  rewrite decide_True; [done | lia].
Qed.

Lemma staleness_is_exact_witness :
  refreshScheduleIfNeeded (Parsed []) (GoTime.mkTime 9223372036854775807 5)
    (morning 0) (mkState ∅ GoTime.zeroTime)
  = refreshSchedule (Parsed []) (morning 0) (mkState ∅ GoTime.zeroTime).
Proof.
  apply (staleness_is_exact (Parsed []) (GoTime.mkTime 9223372036854775807 5)
           (morning 0) (mkState ∅ GoTime.zeroTime)); [reflexivity | simpl; lia | simpl; lia].
Defined.

(** X10. What one staleness-gated request can do: it calls [client.Get]
    at most once; it writes an error response only after a fetch, and
    only with the error of the failed fetch or of the failed document
    parse; it panics only when the document parse failed; and when it
    does nothing to the response or the upstream, the cache is as it
    was. *)
Theorem request_effects (up : Upstream) (checked now : GoTime.Time) (st : State) :
  length (filter (λ e, e = Fetch) (events (refreshScheduleIfNeeded up checked now st))) ≤ 1 ∧
  (∀ msg, HttpError msg ∈ events (refreshScheduleIfNeeded up checked now st) →
     events (refreshScheduleIfNeeded up checked now st) = [Fetch; HttpError msg] ∧
     (up = GetFails msg ∨ up = ParseFails msg)) ∧
  (panicked (refreshScheduleIfNeeded up checked now st) = true →
     ∃ err, up = ParseFails err) ∧
  (events (refreshScheduleIfNeeded up checked now st) = [] →
     after (refreshScheduleIfNeeded up checked now st) = st).
Proof.
  unfold refreshScheduleIfNeeded. cbv zeta.
  destruct (GoTime.Sub checked (lastRefresh st) >? cacheDuration)%Z.
  - destruct up as [err|err|doc]; cbn; split_and!; try done; try lia.
    + intros msg [H|H%list_elem_of_singleton]%elem_of_cons; [done|].
      injection H as ->. auto.
    + intros msg [H|H%list_elem_of_singleton]%elem_of_cons; [done|].
      injection H as ->. auto.
    + by exists err.
    + intros msg H%list_elem_of_singleton. done.
  - cbn. split_and!; try done; [lia|]. by intros msg ?%elem_of_nil.
Qed.

End CacheExtra.

Module HandlerExtra.
Import App AppSpec AppFacts Handlers.

(** X11. When a request to [/schedule.json] finds the cache stale and
    the fetch fails, the handler writes the error response and then
    still sets the content type and writes the JSON of the value of
    [schedule] it had (the nil map of a new process included), which
    stays in the cache. When instead the document parse fails, the error
    response is all that is written: the handler panics and the cache is
    left with a made, empty schedule. In both cases one fetch was made
    and the last-refresh time is the current time. *)
Theorem json_handler_on_failure
    (Marshal : option (gmap string (list match_)) → string + string)
    (err js : string) (checked now : GoTime.Time) (c : Cache) :
  (cacheDuration < GoTime.Sub checked (lastRefresh (vars c)))%Z →
  Marshal (scheduleValue c) = inl js →
  scheduleJSON Marshal (GetFails err) checked now c
  = (mkCache (mkState (schedule (vars c)) now) (made c),
     [Effect Fetch; Effect (HttpError err);
      SetContentType "application/json; charset=utf-8"; Write js],
     false) ∧
  scheduleValue (mkCache (mkState (schedule (vars c)) now) (made c)) = scheduleValue c ∧
  scheduleJSON Marshal (ParseFails err) checked now c
  = (mkCache (mkState ∅ now) true, [Effect Fetch; Effect (HttpError err)], true) ∧
  scheduleValue (mkCache (mkState ∅ now) true) = Some ∅.
Proof.
  intros Hstale HM. destruct c as [st mk].
  unfold scheduleJSON, refreshCache, refreshScheduleIfNeeded, scheduleValue in *.
  cbn [vars made] in *. cbv zeta.
  destruct (Z.gtb_spec (GoTime.Sub checked (lastRefresh st)) cacheDuration); [|lia].
  cbn [refreshSchedule refreshBody after events panicked schedule vars made].
  rewrite HM, orb_true_r. done.
Qed.

(** A new process, whose first fetch fails, answers with the error and
    then with the JSON of the nil map. *)
Lemma json_handler_on_failure_witness :
  scheduleJSON (λ v, inl (match v with None => "null" | Some _ => "{}" end))
    (GetFails "timeout") (morning 11) (morning 11)
    (mkCache (mkState ∅ GoTime.zeroTime) false)
  = (mkCache (mkState ∅ (morning 11)) false,
     [Effect Fetch; Effect (HttpError "timeout");
      SetContentType "application/json; charset=utf-8"; Write "null"],
     false).
Proof.
  apply (json_handler_on_failure
           (λ v, inl (match v with None => "null" | Some _ => "{}" end))
           "timeout" "null" (morning 11) (morning 11)
           (mkCache (mkState ∅ GoTime.zeroTime) false)); reflexivity.
Defined.

End HandlerExtra.

(** ** More on the concurrent handlers *)

Module ConcurrentExtra.
Import App AppSpec Concurrent ConcurrentSpec ConcurrentFacts ConcurrentMore.

Lemma weight_cons f h hs : weight f (h :: hs) = f h + weight f hs.
Proof. reflexivity. Qed.

Lemma weight_insert f (hs : list Handler) : ∀ (i : nat) h h',
  hs !! i = Some h → weight f (<[i := h']> hs) + f h = weight f hs + f h'.
Proof.
  induction hs as [|x hs IH]; intros [|i] h h' Hl; try done.
  - injection Hl as ->.
    change (<[0 := h']> (h :: hs)) with (h' :: hs). rewrite !weight_cons. lia.
  - specialize (IH i h h' Hl).
    change (<[S i := h']> (x :: hs)) with (x :: <[i := h']> hs).
    rewrite !weight_cons. lia.
Qed.

Lemma weight_lookup f (hs : list Handler) : ∀ (i : nat) h,
  hs !! i = Some h → f h ≤ weight f hs.
Proof.
  induction hs as [|x hs IH]; intros [|i] h Hl; try done.
  - injection Hl as ->. rewrite weight_cons. lia.
  - rewrite weight_cons. specialize (IH i h Hl). lia.
Qed.

Lemma weight_two f (hs : list Handler) : ∀ (i j : nat) hi hj,
  i ≠ j → hs !! i = Some hi → hs !! j = Some hj → f hi + f hj ≤ weight f hs.
Proof.
  induction hs as [|x hs IH]; intros [|i] [|j] hi hj Hne Hi Hj; try done;
    rewrite weight_cons.
  - injection Hi as ->. pose proof (weight_lookup f hs j hj Hj). lia.
  - injection Hj as ->. pose proof (weight_lookup f hs i hi Hi). lia.
  - assert (i ≠ j) as Hne' by lia. specialize (IH i j hi hj Hne' Hi Hj). lia.
Qed.

Lemma weight_pos f (hs : list Handler) :
  0 < weight f hs → ∃ (i : nat) h, hs !! i = Some h ∧ 0 < f h.
Proof.
  induction hs as [|x hs IH]; [by intros ?%Nat.lt_irrefl|]. rewrite weight_cons. intros H.
  destruct (decide (0 < f x)) as [Hx|Hx].
  - by exists 0, x.
  - destruct IH as (i & h & Hi & Hh); [lia|]. by exists (S i), h.
Qed.

Lemma weight_Arrived hs : Forall (λ h, h = Arrived) hs → weight holds hs = 0.
Proof. induction 1 as [|h hs -> _ IH]; [done|]. by rewrite weight_cons, IH. Qed.

Lemma weight_length hs : weight pending hs ≤ length hs.
Proof.
  induction hs as [|h hs IH]; [done|]. rewrite weight_cons. cbn [length].
  destruct h; cbn [pending]; lia.
Qed.

Lemma step_locked w w' : step w w' → locked_by_one w → locked_by_one w'.
Proof.
  unfold locked_by_one.
  intros [w0 i checked Hi _|w0 i checked Hi _|w0 i Hi Hmu|w0 i up Hi|w0 i p now Hi] Hinv;
    cbn [handlers mu].
  - pose proof (weight_insert holds _ _ _ Served Hi) as E. cbn [holds] in E. lia.
  - pose proof (weight_insert holds _ _ _ Waiting Hi) as E. cbn [holds] in E. lia.
  - pose proof (weight_insert holds _ _ _ Holding Hi) as E. cbn [holds] in E.
    rewrite Hmu in Hinv. lia.
  - pose proof (weight_insert holds _ _ _ (Finishing (refreshBody up (shared w0)).2) Hi) as E.
    cbn [holds] in E. lia.
  - pose proof (weight_insert holds _ _ _ Served Hi) as E. cbn [holds] in E.
    pose proof (weight_lookup holds _ _ _ Hi) as L. cbn [holds] in L.
    destruct (mu w0); lia.
Qed.

Lemma steps_locked w w' : rtc step w w' → locked_by_one w → locked_by_one w'.
Proof. induction 1; eauto using step_locked. Qed.

Lemma quiet_locked w : quiet w → locked_by_one w.
Proof. intros [Hmu Hall]. unfold locked_by_one. by rewrite Hmu, weight_Arrived. Qed.

(** X12. Mutual exclusion. In every world reached from one where no
    handler has started and [mu] is free, at most one handler is inside
    [refreshSchedule] between [mu.Lock()] and the deferred
    [mu.Unlock()], and [mu] is held exactly when there is one. *)
Theorem refresh_is_exclusive (w0 w : World) :
  quiet w0 → rtc step w0 w →
  (∀ (i j : nat) hi hj,
     handlers w !! i = Some hi → handlers w !! j = Some hj →
     holds hi = 1 → holds hj = 1 → i = j) ∧
  (mu w = true ↔ ∃ (i : nat) h, handlers w !! i = Some h ∧ holds h = 1).
Proof.
  intros Hq Hrun. pose proof (steps_locked _ _ Hrun (quiet_locked _ Hq)) as Hinv.
  unfold locked_by_one in Hinv. split.
  - intros i j hi hj Hi Hj Hhi Hhj. destruct (decide (i = j)) as [|Hne]; [done|].
    pose proof (weight_two holds _ _ _ _ _ Hne Hi Hj). destruct (mu w); lia.
  - split.
    + intros Hmu. rewrite Hmu in Hinv.
      destruct (weight_pos holds (handlers w)) as (i & h & Hi & Hh); [lia|].
      exists i, h. split; [done|]. destruct h; cbn [holds] in *; lia.
    + intros (i & h & Hi & Hh). pose proof (weight_lookup holds _ _ _ Hi).
      destruct (mu w); [done | lia].
Qed.

Lemma refresh_is_exclusive_witness :
  quiet twoArrived ∧ rtc step twoArrived twoServed ∧
  (mu twoServed = true ↔ ∃ (i : nat) h, handlers twoServed !! i = Some h ∧ holds h = 1).
Proof.
  assert (quiet twoArrived) as Hq by (split; [done | repeat constructor]).
  assert (rtc step twoArrived twoServed) as Hrun.
  { etrans; [apply both_observe_stale | apply both_refresh]. }
  split; [done|]. split; [done|].
  apply (refresh_is_exclusive twoArrived twoServed Hq Hrun).
Defined.

(** X13. No deadlock. In every world reached from one where no handler
    has started and [mu] is free, as long as some handler is not served
    some handler can take a step: [mu] is always released, also after a
    failed fetch and after a panic, since [mu.Unlock()] is deferred. *)
Theorem handlers_never_stuck (w0 w : World) :
  quiet w0 → rtc step w0 w →
  (∃ (i : nat) h, handlers w !! i = Some h ∧ h ≠ Served) →
  ∃ w', step w w'.
Proof.
  intros Hq Hrun (i & h & Hi & Hh).
  pose proof (steps_locked _ _ Hrun (quiet_locked _ Hq)) as Hinv.
  unfold locked_by_one in Hinv.
  assert (∀ (j : nat) hj, handlers w !! j = Some hj → holds hj = 1 → ∃ w', step w w')
    as Hholder.
  { intros j hj Hj Hhj. destruct hj; try discriminate Hhj.
    - eexists. by eapply (step_body _ j (GetFails "")).
    - eexists. by eapply (step_unlock _ j _ GoTime.zeroTime). }
  destruct h; try done.
  - destruct (decide (GoTime.Sub GoTime.zeroTime (lastRefresh (shared w)) <= cacheDuration)%Z).
    + eexists. by eapply (step_fresh _ i GoTime.zeroTime).
    + eexists. eapply (step_stale _ i GoTime.zeroTime); [done | lia].
  - destruct (mu w) eqn:Hmu.
    + destruct (weight_pos holds (handlers w)) as (j & hj & Hj & Hhj); [lia|].
      apply (Hholder j hj Hj). destruct hj; cbn [holds] in *; lia.
    + eexists. by eapply (step_lock _ i).
  - by apply (Hholder i Holding).
  - by apply (Hholder i (Finishing p)).
Qed.

Lemma handlers_never_stuck_witness : ∃ w', step twoWaiting w'.
Proof.
  apply (handlers_never_stuck twoArrived twoWaiting).
  - split; [done | repeat constructor].
  - apply both_observe_stale.
  - exists 0, Waiting. by split.
Defined.

Lemma step_pending w w' :
  step w w' →
  fetches w' + weight pending (handlers w') ≤ fetches w + weight pending (handlers w) ∧
  length (handlers w') = length (handlers w).
Proof.
  intros [w0 i checked Hi _|w0 i checked Hi _|w0 i Hi Hmu|w0 i up Hi|w0 i p now Hi];
    cbn [handlers]; rewrite length_insert; (split; [|done]); unfold fetches; cbn [log].
  - pose proof (weight_insert pending _ _ _ Served Hi) as E. cbn [pending] in E. lia.
  - pose proof (weight_insert pending _ _ _ Waiting Hi) as E. cbn [pending] in E. lia.
  - pose proof (weight_insert pending _ _ _ Holding Hi) as E. cbn [pending] in E. lia.
  - rewrite filter_app, length_app, body_fetches_once.
    pose proof (weight_insert pending _ _ _ (Finishing (refreshBody up (shared w0)).2) Hi)
      as E. cbn [pending] in E. lia.
  - pose proof (weight_insert pending _ _ _ Served Hi) as E. cbn [pending] in E. lia.
Qed.

Lemma steps_pending w w' :
  rtc step w w' →
  fetches w' + weight pending (handlers w') ≤ fetches w + weight pending (handlers w) ∧
  length (handlers w') = length (handlers w).
Proof.
  induction 1 as [w | w w1 w' Hs _ IH]; [done|].
  destruct (step_pending _ _ Hs), IH. split; [lia | congruence].
Qed.

(** X14. Each request fetches at most once: however the steps of the
    handlers interleave, the fetches made since a world are at most as
    many as the handlers, and at most as many as the handlers that had
    not yet passed [client.Get] in that world. The number of handlers
    does not change. *)
Theorem one_fetch_per_request (w w' : World) :
  rtc step w w' →
  fetches w' ≤ fetches w + weight pending (handlers w) ∧
  fetches w' ≤ fetches w + length (handlers w) ∧
  length (handlers w') = length (handlers w).
Proof.
  intros Hrun. destruct (steps_pending _ _ Hrun) as [H1 H2].
  pose proof (weight_length (handlers w)). split_and!; [lia | lia | done].
Qed.

Lemma one_fetch_per_request_witness :
  fetches twoServed ≤ fetches twoArrived + length (handlers twoArrived).
Proof.
  apply (one_fetch_per_request twoArrived twoServed).
  etrans; [apply both_observe_stale | apply both_refresh].
Defined.

End ConcurrentExtra.
